(** * ChatInterface: the streaming conversation of [src/components/ChatInterface.tsx]

    A shallow embedding of the React component's state ([messages], [input],
    [isLoading]), of the asynchronous [handleSubmit] handler and of the two
    platform primitives it relies on ([String.prototype.trim] and a streaming
    UTF-8 [TextDecoder]), followed by the properties of the conversation
    state machine.

    Conventions.
    - A JavaScript string is its sequence of UTF-16 code units ([jsstring]).
    - A [Uint8Array] is a [list byte].
    - [Date.now()] and [new Date()] read the wall clock; their results are
      inputs of the handler (record [Clock]).
    - A call [setX(...)] of a React state setter is an [Update]; the handler
      is the list of updates it issues, in program order, and the states a
      renderer may observe are the states between two updates. *)

From Stdlib Require Import NArith ZArith Lia.
From Stdlib Require Import Strings.Byte.
From Stdlib Require Strings.String.
From stdpp Require Import base list strings pretty.

Local Open Scope N_scope.

(** ** JavaScript strings *)

Definition jsstring := list N.

(** ECMAScript [WhiteSpace] and [LineTerminator] code points, the ones
    [String.prototype.trim] strips.  All of them lie in the basic plane, so
    the test is on a single code unit. *)
Definition isWhiteSpace (c : N) : bool :=
  (c =? 0x0009) || (c =? 0x000A) || (c =? 0x000B) || (c =? 0x000C) ||
  (c =? 0x000D) || (c =? 0x0020) || (c =? 0x00A0) || (c =? 0x1680) ||
  ((0x2000 <=? c) && (c <=? 0x200A)) ||
  (c =? 0x2028) || (c =? 0x2029) || (c =? 0x202F) || (c =? 0x205F) ||
  (c =? 0x3000) || (c =? 0xFEFF).

Fixpoint trimStart (s : jsstring) : jsstring :=
  match s with
  | [] => []
  | c :: s' => if isWhiteSpace c then trimStart s' else s
  end.

Definition trimEnd (s : jsstring) : jsstring :=
  reverse (trimStart (reverse s)).

Definition trim (s : jsstring) : jsstring := trimEnd (trimStart s).

(** JavaScript truthiness of a string: only the empty string is falsy. *)
Definition truthy (s : jsstring) : bool :=
  match s with [] => false | _ :: _ => true end.

(** ** The streaming UTF-8 decoder behind [new TextDecoder()]

    [TextDecoder] is a platform primitive; the definitions below follow the
    WHATWG Encoding Standard: the UTF-8 decoder's handler, the replacement
    error mode (the constructor's default, [fatal: false]), the byte-order
    mark rule of "serialize I/O queue" (the default [ignoreBOM: false]) and
    the [stream: true] option of [decode], under which end-of-queue is never
    handed to the handler, so an unfinished sequence stays in the decoder. *)
Module TextDecoder.

Record Utf8 := {
  code_point : N;
  bytes_seen : N;
  bytes_needed : N;
  lower_boundary : N;
  upper_boundary : N
}.

Definition utf8_init : Utf8 :=
  {| code_point := 0; bytes_seen := 0; bytes_needed := 0;
     lower_boundary := 0x80; upper_boundary := 0xBF |}.

Definition REPLACEMENT : N := 0xFFFD.
Definition BOM : N := 0xFEFF.

(** Step 3 of the handler: no sequence is in progress.  Returns the next
    decoder state and the scalar values emitted. *)
Definition lead (b : N) : Utf8 * list N :=
  if b <=? 0x7F then (utf8_init, [b])
  else if (0xC2 <=? b) && (b <=? 0xDF) then
    ({| code_point := N.land b 0x1F; bytes_seen := 0; bytes_needed := 1;
        lower_boundary := 0x80; upper_boundary := 0xBF |}, [])
  else if (0xE0 <=? b) && (b <=? 0xEF) then
    ({| code_point := N.land b 0xF; bytes_seen := 0; bytes_needed := 2;
        lower_boundary := if b =? 0xE0 then 0xA0 else 0x80;
        upper_boundary := if b =? 0xED then 0x9F else 0xBF |}, [])
  else if (0xF0 <=? b) && (b <=? 0xF4) then
    ({| code_point := N.land b 0x7; bytes_seen := 0; bytes_needed := 3;
        lower_boundary := if b =? 0xF0 then 0x90 else 0x80;
        upper_boundary := if b =? 0xF4 then 0x8F else 0xBF |}, [])
  else (utf8_init, [REPLACEMENT]).

(** The handler on one byte.  When a continuation byte is out of range
    (step 4) the decoder is reset, the byte is restored to the queue and
    an error is returned: the error emits U+FFFD and the restored byte is
    read again, now with no sequence in progress, hence by [lead]. *)
Definition handler (d : Utf8) (b : N) : Utf8 * list N :=
  if bytes_needed d =? 0 then lead b
  else if negb ((lower_boundary d <=? b) && (b <=? upper_boundary d)) then
    let '(d', out) := lead b in (d', REPLACEMENT :: out)
  else
    let cp := N.lor (N.shiftl (code_point d) 6) (N.land b 0x3F) in
    let seen := bytes_seen d + 1 in
    if negb (seen =? bytes_needed d) then
      ({| code_point := cp; bytes_seen := seen;
          bytes_needed := bytes_needed d;
          lower_boundary := 0x80; upper_boundary := 0xBF |}, [])
    else (utf8_init, [cp]).

(** Processing a queue of bytes that does not end the stream. *)
Fixpoint run (d : Utf8) (bs : list byte) : Utf8 * list N :=
  match bs with
  | [] => (d, [])
  | b :: bs' =>
      let '(d1, o1) := handler d (Byte.to_N b) in
      let '(d2, o2) := run d1 bs' in
      (d2, o1 ++ o2)
  end.

(** "Serialize I/O queue": the first scalar value ever serialized is
    dropped when it is the byte-order mark. *)
Fixpoint serialize (bom_seen : bool) (items : list N) : bool * list N :=
  match items with
  | [] => (bom_seen, [])
  | c :: rest =>
      if bom_seen then
        let '(s, o) := serialize true rest in (s, c :: o)
      else if c =? BOM then serialize true rest
      else let '(s, o) := serialize true rest in (s, c :: o)
  end.

(** A scalar value as UTF-16 code units. *)
Definition utf16 (cp : N) : jsstring :=
  if cp <? 0x10000 then [cp]
  else
    let c := cp - 0x10000 in
    [0xD800 + N.shiftr c 10; 0xDC00 + N.land c 0x3FF].

Definition utf16_all (cps : list N) : jsstring := flat_map utf16 cps.

Record t := {
  utf8 : Utf8;
  BOM_seen : bool;
  do_not_flush : bool
}.

(** [new TextDecoder()] *)
Definition new : t :=
  {| utf8 := utf8_init; BOM_seen := false; do_not_flush := false |}.

(** [decoder.decode(value, { stream: true })] *)
Definition decode_stream (dec : t) (value : list byte) : t * jsstring :=
  let dec0 := if do_not_flush dec then dec else new in
  let '(d, scalars) := run (utf8 dec0) value in
  let '(seen, out) := serialize (BOM_seen dec0) scalars in
  ({| utf8 := d; BOM_seen := seen; do_not_flush := true |}, utf16_all out).

End TextDecoder.

(** A string literal of the source file: the UTF-16 string of the
    characters written between the quotes (the file is UTF-8). *)
Definition lit (s : string) : jsstring :=
  TextDecoder.utf16_all
    (snd (TextDecoder.run TextDecoder.utf8_init (String.list_byte_of_string s))).

(** ** The data model (lines 9-28) *)

Inductive MessageType := user | assistant.

Record Message := {
  id : string;
  content : jsstring;
  type : MessageType;
  timestamp : Z;
  isStreaming : option bool   (* the optional field [isStreaming?] *)
}.

Record State := {
  messages : list Message;
  input : jsstring;
  isLoading : bool
}.

(** [message.isStreaming] read as a condition: [undefined] is falsy. *)
Definition streaming (m : Message) : bool :=
  match isStreaming m with Some true => true | _ => false end.

Definition greeting : jsstring :=
  Eval vm_compute in
  lit "¡Hola! Soy tu asistente de IA para la UTP. Puedo ayudarte con información sobre reglamentos, guías de estudiante y procedimientos académicos. ¿En qué puedo ayudarte hoy?".

Definition errorMessage : jsstring :=
  Eval vm_compute in
  lit "Lo siento, ocurrió un error al procesar tu mensaje. Por favor, intenta de nuevo.".

(** The state of the first render; [mounted] is the clock reading of the
    seeded message's [new Date()]. *)
Definition initialState (mounted : Z) : State :=
  {| messages :=
       [ {| id := "1"; content := greeting; type := assistant;
            timestamp := mounted; isStreaming := None |} ];
     input := [];
     isLoading := false |}.

(** ** State setters *)

Inductive Update :=
| SetMessages (f : list Message -> list Message)   (* setMessages(prev => f prev) *)
| SetInput (s : jsstring)
| SetIsLoading (b : bool).

Definition apply (st : State) (u : Update) : State :=
  match u with
  | SetMessages f =>
      {| messages := f (messages st); input := input st; isLoading := isLoading st |}
  | SetInput s =>
      {| messages := messages st; input := s; isLoading := isLoading st |}
  | SetIsLoading b =>
      {| messages := messages st; input := input st; isLoading := b |}
  end.

Definition applyAll (st : State) (us : list Update) : State :=
  foldl apply st us.

(** The states after each update, in order: everything a renderer can be
    shown while the updates are carried out (batching shows fewer). *)
Fixpoint observed (st : State) (us : list Update) : list State :=
  match us with
  | [] => []
  | u :: us' => apply st u :: observed (apply st u) us'
  end.

(** ** The updaters passed to [setMessages] in [handleSubmit] *)

(** lines 51 and 64: [prev => [...prev, m]] *)
Definition appendMessage (m : Message) (prev : list Message) : list Message :=
  prev ++ [m].

(** lines 89-95: the decoded chunk is appended to every message carrying
    the target id *)
Definition appendFragment (target : string) (chunk : jsstring)
    (prev : list Message) : list Message :=
  fmap (fun msg =>
         if decide (id msg = target)
         then {| id := id msg; content := content msg ++ chunk; type := type msg;
                 timestamp := timestamp msg; isStreaming := isStreaming msg |}
         else msg) prev.

(** lines 99-103: "Mark streaming as complete" *)
Definition finalize (target : string) (prev : list Message) : list Message :=
  fmap (fun msg =>
         if decide (id msg = target)
         then {| id := id msg; content := content msg; type := type msg;
                 timestamp := timestamp msg; isStreaming := Some false |}
         else msg) prev.

(** lines 106-117: the updater of the [catch] block *)
Definition replaceAndFinalize (target : string) (text : jsstring)
    (prev : list Message) : list Message :=
  fmap (fun msg =>
         if decide (id msg = target)
         then {| id := id msg; content := text; type := type msg;
                 timestamp := timestamp msg; isStreaming := Some false |}
         else msg) prev.

(** ** The environment of one call of [handleSubmit] *)

(** The four clock readings of lines 45, 48, 57 and 60, in program order. *)
Record Clock := {
  now_user : Z;       (* Date.now()   on line 45 *)
  date_user : Z;      (* new Date()   on line 48 *)
  now_assistant : Z;  (* Date.now()   on line 57 *)
  date_assistant : Z  (* new Date()   on line 60 *)
}.

(** How the body's reader ends: [read()] resolves with [done], or rejects. *)
Inductive StreamEnd := EndOfStream | ReadFailure.

Record Body := {
  chunks : list (list byte);   (* the values of the successive reads *)
  ending : StreamEnd
}.

(** What [await fetch(...)] gives: a rejection, or a response with its
    status and its body ([response.body] may be [null]). *)
Inductive FetchResult :=
| FetchRejected
| FetchResolved (status : Z) (body : option Body).

(** [response.ok] *)
Definition ok (status : Z) : bool := ((200 <=? status) && (status <=? 299))%Z.

(** The request of lines 67-76. *)
Record Request := {
  path : string;
  method : string;
  contentType : string;
  pregunta : jsstring
}.

(** ** [handleSubmit] *)

(** Lines 41-64, the part that runs before the first [await]: the guard,
    the two messages and the four state updates.  [None] is the early
    [return] of line 42. *)
Record Started := {
  updates : list Update;
  userMessage : Message;
  assistantMessage : Message;
  request : Request
}.

Definition start (st : State) (clk : Clock) : option Started :=
  if negb (truthy (trim (input st))) || isLoading st then None
  else
    let userMessage :=
      {| id := pretty (now_user clk); content := trim (input st); type := user;
         timestamp := date_user clk; isStreaming := None |} in
    let assistantMessage :=
      {| id := pretty (now_assistant clk + 1)%Z; content := []; type := assistant;
         timestamp := date_assistant clk; isStreaming := Some true |} in
    Some {| updates :=
              [ SetMessages (appendMessage userMessage);
                SetInput [];
                SetIsLoading true;
                SetMessages (appendMessage assistantMessage) ];
            userMessage := userMessage;
            assistantMessage := assistantMessage;
            request :=
              {| path := "/api/chat"; method := "POST";
                 contentType := "application/json";
                 pregunta := trim (input st) |} |}.

(** Lines 83-96, the [while (true)] loop.  The result tells whether the
    loop was left by [break] ([false]) or by an exception ([true]). *)
Fixpoint readLoop (target : string) (decoder : TextDecoder.t)
    (values : list (list byte)) (e : StreamEnd) : list Update * bool :=
  match values with
  | [] =>
      match e with
      | EndOfStream => ([], false)
      | ReadFailure => ([], true)
      end
  | value :: rest =>
      let '(decoder', chunk) := TextDecoder.decode_stream decoder value in
      let '(us, threw) := readLoop target decoder' rest e in
      (SetMessages (appendFragment target chunk) :: us, threw)
  end.

(** Lines 66-103, the [try] block. *)
Definition tryBlock (target : string) (response : FetchResult) : list Update * bool :=
  match response with
  | FetchRejected => ([], true)
  | FetchResolved _ None => ([], true)          (* line 78 *)
  | FetchResolved _ (Some body) =>
      let '(us, threw) :=
        readLoop target TextDecoder.new (chunks body) (ending body) in
      if threw then (us, true)
      else (us ++ [SetMessages (finalize target)], false)
  end.

(** Lines 66-120: [try], [catch] and [finally]. *)
Definition exchange (target : string) (response : FetchResult) : list Update :=
  let '(us, threw) := tryBlock target response in
  us ++ (if threw then [SetMessages (replaceAndFinalize target errorMessage)] else [])
     ++ [SetIsLoading false].

(** The whole handler: every state update it issues, in order. *)
Definition handleSubmit (st : State) (clk : Clock) (response : FetchResult)
    : list Update :=
  match start st clk with
  | None => []
  | Some s => updates s ++ exchange (id (assistantMessage s)) response
  end.

(** The request the handler sends, if any. *)
Definition dispatched (st : State) (clk : Clock) : option Request :=
  request <$> start st clk.

(** ** The session: interleaving of user events and promise settlements

    [handleSubmit] is suspended at [await fetch] and at each
    [await reader.read()].  A [Task] is one suspended call with the locals
    it still needs; an [Event] is a user action or the settlement of the
    promise the [k]-th task waits for.  Every event is handled by the
    handler of the current render, which reads the current [input] and
    [isLoading]; the continuations only use functional updates, so they
    never read the state.  Nothing in this model limits the number of
    tasks: that there is at most one is a property of the guard on
    line 42. *)

Inductive Task :=
| AwaitFetch (target : string)
| AwaitRead (target : string) (decoder : TextDecoder.t).

Record Session := {
  ui : State;
  tasks : list Task
}.

Inductive Event :=
| Typed (text : jsstring)                            (* onChange, line 217 *)
| Submitted (clk : Clock)                            (* onSubmit / Enter *)
| FetchRejects (k : nat)
| FetchResolves (k : nat) (status : Z) (hasBody : bool)
| ReadResolves (k : nat) (value : list byte)         (* { done: false, value } *)
| ReadDone (k : nat)                                 (* { done: true } *)
| ReadRejects (k : nat).

(** [catch] followed by [finally]. *)
Definition caught (target : string) : list Update :=
  [SetMessages (replaceAndFinalize target errorMessage); SetIsLoading false].

(** The updates an event triggers and the tasks left suspended after it.
    An event for a task that is not waiting for it does nothing. *)
Definition react (s : Session) (e : Event) : list Update * list Task :=
  match e with
  | Typed text => ([SetInput text], tasks s)
  | Submitted clk =>
      match start (ui s) clk with
      | None => ([], tasks s)
      | Some st => (updates st, tasks s ++ [AwaitFetch (id (assistantMessage st))])
      end
  | FetchRejects k =>
      match tasks s !! k with
      | Some (AwaitFetch target) => (caught target, delete k (tasks s))
      | _ => ([], tasks s)
      end
  | FetchResolves k _ hasBody =>
      match tasks s !! k with
      | Some (AwaitFetch target) =>
          if hasBody then ([], <[k := AwaitRead target TextDecoder.new]> (tasks s))
          else (caught target, delete k (tasks s))
      | _ => ([], tasks s)
      end
  | ReadResolves k value =>
      match tasks s !! k with
      | Some (AwaitRead target decoder) =>
          let '(decoder', chunk) := TextDecoder.decode_stream decoder value in
          ([SetMessages (appendFragment target chunk)],
           <[k := AwaitRead target decoder']> (tasks s))
      | _ => ([], tasks s)
      end
  | ReadDone k =>
      match tasks s !! k with
      | Some (AwaitRead target _) =>
          ([SetMessages (finalize target); SetIsLoading false], delete k (tasks s))
      | _ => ([], tasks s)
      end
  | ReadRejects k =>
      match tasks s !! k with
      | Some (AwaitRead target _) => (caught target, delete k (tasks s))
      | _ => ([], tasks s)
      end
  end.

Definition step (s : Session) (e : Event) : Session :=
  {| ui := applyAll (ui s) (fst (react s e)); tasks := snd (react s e) |}.

Definition steps (s : Session) (es : list Event) : Session := foldl step s es.

(** Every state shown while the events [es] are handled from [s]. *)
Fixpoint watch (s : Session) (es : list Event) : list State :=
  match es with
  | [] => []
  | e :: es' => observed (ui s) (fst (react s e)) ++ watch (step s e) es'
  end.

Definition initialSession (mounted : Z) : Session :=
  {| ui := initialState mounted; tasks := [] |}.

(** The events of one undisturbed exchange with the given response. *)
Definition script (clk : Clock) (response : FetchResult) : list Event :=
  Submitted clk ::
  match response with
  | FetchRejected => [FetchRejects 0]
  | FetchResolved status None => [FetchResolves 0 status false]
  | FetchResolved status (Some body) =>
      FetchResolves 0 status true ::
      map (ReadResolves 0) (chunks body) ++
      [match ending body with EndOfStream => ReadDone 0 | ReadFailure => ReadRejects 0 end]
  end.

(** ** Measures used in the statements *)

Fixpoint streamingCount (l : list Message) : nat :=
  match l with
  | [] => 0
  | m :: l' => (if streaming m then 1 else 0) + streamingCount l'
  end.

(** The position the assistant placeholder of a submission made in state
    [st] takes in the conversation: the user message goes to
    [length (messages st)], the placeholder right after it. *)
Definition placeholderIndex (st : State) : nat := S (length (messages st)).

Definition placeholder (st0 st : State) : option Message :=
  messages st !! placeholderIndex st0.

(** ** What the specification words say about [appendFragment] *)

Inductive StoreError := NotFoundError | ValidationError.

(** Follows section 4.1 of the specification: "finds the message with id;
    fails with NotFoundError if absent or if its status is not streaming.
    Concatenates fragment onto content." *)
Definition spec_appendFragment (target : string) (fragment : jsstring)
    (prev : list Message) : StoreError + list Message :=
  match list_find (fun m => id m = target) prev with
  | None => inl NotFoundError
  | Some (i, m) =>
      if streaming m
      then inr (<[i := {| id := id m; content := content m ++ fragment;
                          type := type m; timestamp := timestamp m;
                          isStreaming := isStreaming m |}]> prev)
      else inl NotFoundError
  end.

(** The updater of lines 89-95 has no failing path: it always returns. *)
Definition appendFragment_outcome (target : string) (chunk : jsstring)
    (prev : list Message) : StoreError + list Message :=
  inr (appendFragment target chunk prev).

(** ** UTF-8 as the statements need it

    The standard encoding of a scalar value, used to say which byte
    streams are "valid UTF-8" and which character they spell. *)

Definition is_scalar (cp : N) : bool :=
  (cp <? 0xD800) || ((0xE000 <=? cp) && (cp <=? 0x10FFFF)).

Definition byte_of (n : N) : byte := default x00 (Byte.of_N n).

Definition utf8_encode (cp : N) : list byte :=
  if cp <? 0x80 then [byte_of cp]
  else if cp <? 0x800 then
    [byte_of (0xC0 + cp / 0x40); byte_of (0x80 + cp mod 0x40)]
  else if cp <? 0x10000 then
    [byte_of (0xE0 + cp / 0x1000); byte_of (0x80 + (cp / 0x40) mod 0x40);
     byte_of (0x80 + cp mod 0x40)]
  else
    [byte_of (0xF0 + cp / 0x40000); byte_of (0x80 + (cp / 0x1000) mod 0x40);
     byte_of (0x80 + (cp / 0x40) mod 0x40); byte_of (0x80 + cp mod 0x40)].

Definition utf8_encode_all (cps : list N) : list byte := flat_map utf8_encode cps.

(** The text a decoder with [ignoreBOM: false] makes of a sequence of
    scalar values: a byte-order mark in first position is a signature, not
    text. *)
Definition strip_bom (cps : list N) : list N :=
  match cps with
  | c :: rest => if c =? TextDecoder.BOM then rest else cps
  | [] => []
  end.

(** All the chunks of a body pushed through one decoder, as the loop does:
    the final decoder and the concatenation of the decoded fragments. *)
Fixpoint decode_chunks (decoder : TextDecoder.t) (values : list (list byte))
    : TextDecoder.t * jsstring :=
  match values with
  | [] => (decoder, [])
  | value :: rest =>
      let '(decoder', chunk) := TextDecoder.decode_stream decoder value in
      let '(decoder'', out) := decode_chunks decoder' rest in
      (decoder'', chunk ++ out)
  end.

(** The guard of line 42 lets the submission through. *)
Definition accepted (st : State) : bool :=
  truthy (trim (input st)) && negb (isLoading st).

(** The placeholder of a submission made in [st0] is shown streaming in [st]. *)
Definition placeholderStreaming (st0 st : State) : bool :=
  match placeholder st0 st with Some m => streaming m | None => false end.

(** A streaming placeholder is only ever shown together with the busy flag. *)
Definition busyWhileStreaming (st0 st : State) : bool :=
  implb (placeholderStreaming st0 st) (isLoading st).

(** The successive values of the placeholder's content in a list of
    observed states (states in which it does not exist yet are skipped). *)
Definition placeholderContents (st0 : State) (trace : list State) : list jsstring :=
  omap (fun st => content <$> placeholder st0 st) trace.

(** Each element is a prefix of the next one. *)
Fixpoint growing (l : list jsstring) : Prop :=
  match l with
  | a :: (b :: _) as l' => a `prefix_of` b /\ growing l'
  | _ => True
  end.

(** The final state of a call of [handleSubmit]. *)
Definition finalState (st : State) (clk : Clock) (response : FetchResult) : State :=
  applyAll st (handleSubmit st clk response).

(** A body whose reads deliver [values] and then end the stream, under any
    status. *)
Definition streamed (status : Z) (values : list (list byte)) : FetchResult :=
  FetchResolved status (Some {| chunks := values; ending := EndOfStream |}).

(** A body whose reads deliver [values] and then fail. *)
Definition interrupted (status : Z) (values : list (list byte)) : FetchResult :=
  FetchResolved status (Some {| chunks := values; ending := ReadFailure |}).

(** The conversation an exchange leaves, as one function of the
    conversation it starts from (a summary of [exchange], see
    [applyAll_exchange]). *)
Definition outcome (target : string) (response : FetchResult)
    (prev : list Message) : list Message :=
  match response with
  | FetchRejected | FetchResolved _ None =>
      replaceAndFinalize target errorMessage prev
  | FetchResolved _ (Some body) =>
      let prev' :=
        appendFragment target (snd (decode_chunks TextDecoder.new (chunks body))) prev in
      match ending body with
      | EndOfStream => finalize target prev'
      | ReadFailure => replaceAndFinalize target errorMessage prev'
      end
  end.

(** The content the placeholder ends with. *)
Definition terminalContent (response : FetchResult) : jsstring :=
  match response with
  | FetchResolved _ (Some {| chunks := values; ending := EndOfStream |}) =>
      snd (decode_chunks TextDecoder.new values)
  | _ => errorMessage
  end.

(** ** Concrete data for the examples *)

(** A session in which "Hola" has been typed. *)
Definition exampleState : State :=
  {| messages := messages (initialState 0); input := lit "Hola"; isLoading := false |}.

Definition exampleClock : Clock :=
  {| now_user := 1700000000000; date_user := 1700000000000;
     now_assistant := 1700000000000; date_assistant := 1700000000000 |}.

(** The same, one millisecond later. *)
Definition laterClock : Clock :=
  {| now_user := 1700000000001; date_user := 1700000000001;
     now_assistant := 1700000000001; date_assistant := 1700000000001 |}.

Definition bytes (s : string) : list byte := String.list_byte_of_string s.

(** A conversation at rest: the greeting, a question and its answer. *)
Definition exampleConversation : list Message :=
  [ {| id := "1"; content := greeting; type := assistant;
       timestamp := 0; isStreaming := None |};
    {| id := "1700000000000"; content := lit "Hola"; type := user;
       timestamp := 1700000000000; isStreaming := None |};
    {| id := "1700000000001"; content := lit "Buenos"; type := assistant;
       timestamp := 1700000000000; isStreaming := Some false |} ].

(** Two submissions one millisecond apart, each failing at once
    ([fetch] rejects, as when the backend is unreachable). *)
Definition twoQuickSubmissions : list Event :=
  Typed (lit "a") :: script exampleClock FetchRejected ++
  Typed (lit "b") :: script laterClock FetchRejected.

(** An update leaves the message at position [i], if any, in place, with
    its content extended or unchanged. *)
Definition extendsAt (i : nat) (u : Update) : Prop :=
  forall st m, messages st !! i = Some m ->
    exists m', messages (apply st u) !! i = Some m' /\
               content m `prefix_of` content m'.

Definition isSetMessages (u : Update) : bool :=
  match u with SetMessages _ => true | _ => false end.

Definition taskTarget (t : Task) : string :=
  match t with AwaitFetch target | AwaitRead target _ => target end.

(** What holds of a session between two events. *)
Definition inv (s : Session) : Prop :=
  match tasks s with
  | [] => isLoading (ui s) = false /\ streamingCount (messages (ui s)) = 0%nat
  | [t] =>
      isLoading (ui s) = true /\
      (streamingCount (messages (ui s)) <= 1)%nat /\
      Forall (fun m => streaming m = true -> id m = taskTarget t) (messages (ui s))
  | _ => False
  end.

(** What holds of every state shown, also between two updates. *)
Definition calm (st : State) : Prop :=
  (streamingCount (messages st) <= 1)%nat /\
  (isLoading st = false -> streamingCount (messages st) = 0%nat).

(** ** The rest of the component *)

(** The part of a [React.KeyboardEvent] that [handleKeyDown] reads. *)
Record KeyboardEvent := {
  key : string;
  shiftKey : bool
}.

(** [handleKeyDown] (lines 123-128): whether [preventDefault] was called,
    and the updates issued, which are those of [handleSubmit]. *)
Definition handleKeyDown (st : State) (e : KeyboardEvent) (clk : Clock)
    (response : FetchResult) : bool * list Update :=
  if bool_decide (key e = "Enter") && negb (shiftKey e)
  then (true, handleSubmit st clk response)
  else (false, []).

(** The [disabled] attribute of the submit button (line 227). *)
Definition submitDisabled (st : State) : bool :=
  negb (truthy (trim (input st))) || isLoading st.

(** What identifies a message and never changes: id, role and time. *)
Definition identity (m : Message) : string * MessageType * Z :=
  (id m, type m, timestamp m).

Definition isTyped (e : Event) : bool :=
  match e with Typed _ => true | _ => false end.

(** The messages an event appends, as identities: an accepted submission
    appends two, nothing else appends any. *)
Definition appended (s : Session) (e : Event) : list (string * MessageType * Z) :=
  match e with
  | Submitted clk =>
      match start (ui s) clk with
      | Some st => [identity (userMessage st); identity (assistantMessage st)]
      | None => []
      end
  | _ => []
  end.

(** The clock readings of the successive submissions are spaced: each
    submission reads the clock after [last], the largest identifier given
    so far, and the clock does not step back between its two readings. *)
Fixpoint spaced (last : Z) (es : list Event) : Prop :=
  match es with
  | [] => True
  | Submitted clk :: es' =>
      (last < now_user clk)%Z /\ (now_user clk <= now_assistant clk)%Z /\
      spaced (now_assistant clk + 1)%Z es'
  | _ :: es' => spaced last es'
  end.

(** Well-formed UTF-16: every high surrogate is followed by a low one and
    no low surrogate stands alone. *)
Fixpoint wellFormed16 (s : jsstring) : bool :=
  match s with
  | [] => true
  | c :: s' =>
      if (0xD800 <=? c) && (c <=? 0xDBFF) then
        match s' with
        | lo :: s'' => (0xDC00 <=? lo) && (lo <=? 0xDFFF) && wellFormed16 s''
        | [] => false
        end
      else negb ((0xDC00 <=? c) && (c <=? 0xDFFF)) && wellFormed16 s'
  end.

(** The states the UTF-8 decoder can be in: idle, or inside a sequence
    of two, three or four bytes with the bits read so far in the range its
    lead byte allows. *)
Definition pending_ok (d : TextDecoder.Utf8) : Prop :=
  let cp := TextDecoder.code_point d in
  let seen := TextDecoder.bytes_seen d in
  let needed := TextDecoder.bytes_needed d in
  let lower := TextDecoder.lower_boundary d in
  let upper := TextDecoder.upper_boundary d in
  d = TextDecoder.utf8_init \/
  (needed = 1 /\ seen = 0 /\ 2 <= cp < 32 /\ lower = 0x80 /\ upper = 0xBF) \/
  (needed = 2 /\ seen = 0 /\ cp < 16 /\
   lower = (if cp =? 0 then 0xA0 else 0x80) /\
   upper = (if cp =? 13 then 0x9F else 0xBF)) \/
  (needed = 2 /\ seen = 1 /\ 32 <= cp < 1024 /\ ~ (0x360 <= cp < 0x380) /\
   lower = 0x80 /\ upper = 0xBF) \/
  (needed = 3 /\ seen = 0 /\ cp <= 4 /\
   lower = (if cp =? 0 then 0x90 else 0x80) /\
   upper = (if cp =? 4 then 0x8F else 0xBF)) \/
  (needed = 3 /\ seen = 1 /\ 16 <= cp < 272 /\ lower = 0x80 /\ upper = 0xBF) \/
  (needed = 3 /\ seen = 2 /\ 1024 <= cp < 17408 /\ lower = 0x80 /\ upper = 0xBF).

(** A byte that cannot start a sequence: a continuation byte, or a lead
    byte no encoding uses. *)
Definition invalid_lead (b : byte) : bool :=
  let n := Byte.to_N b in
  ((0x80 <=? n) && (n <=? 0xC1)) || (0xF5 <=? n).

(** * Properties *)

Import TextDecoder.

(** Division and remainder by a constant are linear for [lia]. *)
Ltac Zify.zify_post_hook ::= Z.to_euclidean_division_equations.

(** ** Bytes and bit operations *)

Lemma to_N_byte_of n : n < 256 -> Byte.to_N (byte_of n) = n.
Proof.
  intros Hn. unfold byte_of.
  destruct (Byte.of_N n) as [b|] eqn:E; simpl.
  - by apply Byte.to_of_N.
  - apply Byte.of_N_None_iff in E. lia.
Qed.

Lemma lor_shiftl_6 a x : x < 64 -> N.lor (N.shiftl a 6) x = a * 64 + x.
Proof.
  intros Hx.
  assert (H0 : N.land (N.shiftl a 6) x = 0).
  { apply N.bits_inj_0. intros n. rewrite N.land_spec.
    destruct (N.lt_ge_cases n 6) as [Hn|Hn].
    - by rewrite N.shiftl_spec_low.
    - rewrite (N.bits_above_log2 x n), andb_false_r; [done|].
      destruct (N.eq_dec x 0) as [->|Hx0]; [simpl; lia|].
      apply N.log2_lt_pow2; [lia|].
      apply N.lt_le_trans with (2 ^ 6); [exact Hx|].
      apply N.pow_le_mono_r; lia. }
  rewrite <- N.lxor_lor, <- N.add_nocarry_lxor by exact H0.
  rewrite N.shiftl_mul_pow2. reflexivity.
Qed.


Lemma land_3F a : N.land a 0x3F = a mod 64.
Proof. exact (N.land_ones a 6). Qed.
Lemma land_1F a : N.land a 0x1F = a mod 32.
Proof. exact (N.land_ones a 5). Qed.
Lemma land_F a : N.land a 0xF = a mod 16.
Proof. exact (N.land_ones a 4). Qed.
Lemma land_7 a : N.land a 0x7 = a mod 8.
Proof. exact (N.land_ones a 3). Qed.

Ltac decide_tests :=
  repeat match goal with
  | |- context [N.leb ?a ?b] => destruct (N.leb_spec a b); try lia
  | |- context [N.ltb ?a ?b] => destruct (N.ltb_spec a b); try lia
  | |- context [N.eqb ?a ?b] => destruct (N.eqb_spec a b); try lia
  end.

Lemma handler_lead b : handler utf8_init b = lead b.
Proof. reflexivity. Qed.

(** One continuation byte in range. *)
Lemma handler_continuation d x :
  bytes_needed d <> 0 -> x < 64 ->
  lower_boundary d <= 0x80 + x <= upper_boundary d ->
  handler d (0x80 + x) =
    if bytes_seen d + 1 =? bytes_needed d
    then (utf8_init, [code_point d * 64 + x])
    else ({| code_point := code_point d * 64 + x;
             bytes_seen := bytes_seen d + 1;
             bytes_needed := bytes_needed d;
             lower_boundary := 0x80; upper_boundary := 0xBF |}, []).
Proof.
  intros Hn Hx [Hl Hu]. unfold handler.
  rewrite land_3F, lor_shiftl_6 by lia.
  replace ((0x80 + x) mod 64) with x by lia.
  destruct (N.eqb_spec (bytes_needed d) 0); [done|].
  destruct (N.leb_spec (lower_boundary d) (0x80 + x)); [|lia].
  destruct (N.leb_spec (0x80 + x) (upper_boundary d)); [|lia].
  simpl. by destruct (N.eqb_spec (bytes_seen d + 1) (bytes_needed d)).
Qed.

Lemma lead_2 h : 2 <= h < 32 ->
  lead (0xC0 + h) =
    ({| code_point := h; bytes_seen := 0; bytes_needed := 1;
        lower_boundary := 0x80; upper_boundary := 0xBF |}, []).
Proof.
  intros Hh. unfold lead. rewrite land_1F.
  replace ((0xC0 + h) mod 32) with h by lia.
  decide_tests. reflexivity.
Qed.

Lemma lead_3 h : h < 16 ->
  lead (0xE0 + h) =
    ({| code_point := h; bytes_seen := 0; bytes_needed := 2;
        lower_boundary := if h =? 0 then 0xA0 else 0x80;
        upper_boundary := if h =? 13 then 0x9F else 0xBF |}, []).
Proof.
  intros Hh. unfold lead. rewrite land_F.
  replace ((0xE0 + h) mod 16) with h by lia.
  decide_tests; reflexivity.
Qed.

Lemma lead_4 h : h <= 4 ->
  lead (0xF0 + h) =
    ({| code_point := h; bytes_seen := 0; bytes_needed := 3;
        lower_boundary := if h =? 0 then 0x90 else 0x80;
        upper_boundary := if h =? 4 then 0x8F else 0xBF |}, []).
Proof.
  intros Hh. unfold lead. rewrite land_7.
  replace ((0xF0 + h) mod 8) with h by lia.
  decide_tests; reflexivity.
Qed.

Lemma steps_2 cp : 0x80 <= cp < 0x800 ->
  exists d1,
    handler utf8_init (0xC0 + cp / 0x40) = (d1, []) /\
    handler d1 (0x80 + cp mod 0x40) = (utf8_init, [cp]).
Proof.
  intros Hcp. eexists. split.
  - rewrite handler_lead, lead_2 by lia. reflexivity.
  - rewrite handler_continuation; cbn; [|lia..].
    f_equal. f_equal. lia.
Qed.

Lemma steps_3 cp : 0x800 <= cp < 0x10000 -> is_scalar cp = true ->
  exists d1 d2,
    handler utf8_init (0xE0 + cp / 0x1000) = (d1, []) /\
    handler d1 (0x80 + (cp / 0x40) mod 0x40) = (d2, []) /\
    handler d2 (0x80 + cp mod 0x40) = (utf8_init, [cp]).
Proof.
  intros Hcp Hs. unfold is_scalar in Hs.
  assert (cp < 0xD800 \/ 0xE000 <= cp) as Hsc.
  { revert Hs. decide_tests; intros; try discriminate; lia. }
  do 2 eexists. split; [|split].
  - rewrite handler_lead, lead_3 by lia. reflexivity.
  - rewrite handler_continuation; cbn; [reflexivity|lia|lia|].
    decide_tests.
  - rewrite handler_continuation; cbn; [|lia..].
    f_equal. f_equal. lia.
Qed.

Lemma steps_4 cp : 0x10000 <= cp <= 0x10FFFF ->
  exists d1 d2 d3,
    handler utf8_init (0xF0 + cp / 0x40000) = (d1, []) /\
    handler d1 (0x80 + (cp / 0x1000) mod 0x40) = (d2, []) /\
    handler d2 (0x80 + (cp / 0x40) mod 0x40) = (d3, []) /\
    handler d3 (0x80 + cp mod 0x40) = (utf8_init, [cp]).
Proof.
  intros Hcp.
  do 3 eexists. split; [|split; [|split]].
  - rewrite handler_lead, lead_4 by lia. reflexivity.
  - rewrite handler_continuation; cbn; [reflexivity|lia|lia|].
    decide_tests.
  - rewrite handler_continuation; cbn; [reflexivity|lia..].
  - rewrite handler_continuation; cbn; [|lia..].
    f_equal. f_equal. lia.
Qed.

Lemma is_scalar_range cp :
  is_scalar cp = true -> cp < 0xD800 \/ 0xE000 <= cp <= 0x10FFFF.
Proof. unfold is_scalar. decide_tests; intros; try discriminate; lia. Qed.

Lemma run_cons d b bs :
  run d (b :: bs) =
    let '(d1, o1) := handler d (Byte.to_N b) in
    let '(d2, o2) := run d1 bs in (d2, o1 ++ o2).
Proof. reflexivity. Qed.

Ltac run_bytes :=
  cbn [run];
  repeat (rewrite to_N_byte_of by lia;
          match goal with H : handler _ _ = _ |- _ => rewrite H; clear H end);
  cbn [run app snd].

Lemma run_utf8_encode cp :
  is_scalar cp = true -> run utf8_init (utf8_encode cp) = (utf8_init, [cp]).
Proof.
  intros Hs. pose proof (is_scalar_range cp Hs) as Hr. unfold utf8_encode.
  destruct (N.ltb_spec cp 0x80) as [L1|L1];
    [|destruct (N.ltb_spec cp 0x800) as [L2|L2];
      [|destruct (N.ltb_spec cp 0x10000) as [L3|L3]]].
  - rewrite run_cons, to_N_byte_of, handler_lead by lia. unfold lead.
    by destruct (N.leb_spec cp 0x7F); [|lia].
  - destruct (steps_2 cp) as (d1 & H1 & H2); [lia|]. by run_bytes.
  - destruct (steps_3 cp) as (d1 & d2 & H1 & H2 & H3); [lia|done|]. by run_bytes.
  - destruct (steps_4 cp) as (d1 & d2 & d3 & H1 & H2 & H3 & H4); [lia|]. by run_bytes.
Qed.

Lemma run_proper_prefix cp p q :
  is_scalar cp = true -> utf8_encode cp = p ++ q -> p <> [] -> q <> [] ->
  snd (run utf8_init p) = [].
Proof.
  intros Hs Hpq Hp Hq. pose proof (is_scalar_range cp Hs) as Hr.
  unfold utf8_encode in Hpq.
  destruct (N.ltb_spec cp 0x80) as [L1|L1];
    [|destruct (N.ltb_spec cp 0x800) as [L2|L2];
      [|destruct (N.ltb_spec cp 0x10000) as [L3|L3]]].
  - destruct p as [|? [|]], q; by simplify_eq/=.
  - destruct (steps_2 cp) as (d1 & H1 & H2); [lia|].
    destruct p as [|? [|? [|]]], q; simplify_eq/=; try done. by run_bytes.
  - destruct (steps_3 cp) as (d1 & d2 & H1 & H2 & H3); [lia|done|].
    destruct p as [|? [|? [|? [|]]]], q; simplify_eq/=; try done; by run_bytes.
  - destruct (steps_4 cp) as (d1 & d2 & d3 & H1 & H2 & H3 & H4); [lia|].
    destruct p as [|? [|? [|? [|? [|]]]]], q; simplify_eq/=; try done; by run_bytes.
Qed.

(** ** Decoding is independent of where the chunks are cut *)

Lemma run_app d a b :
  run d (a ++ b) =
    let '(d1, o1) := run d a in
    let '(d2, o2) := run d1 b in (d2, o1 ++ o2).
Proof.
  revert d. induction a as [|x a IH]; intros d; simpl.
  - by destruct (run d b).
  - destruct (handler d (Byte.to_N x)) as [d1 o1]. rewrite IH.
    destruct (run d1 a) as [d2 o2], (run d2 b) as [d3 o3].
    by rewrite app_assoc.
Qed.

Lemma run_utf8_encode_all cps :
  Forall (fun cp => is_scalar cp = true) cps ->
  run utf8_init (utf8_encode_all cps) = (utf8_init, cps).
Proof.
  induction 1 as [|cp cps Hcp _ IH]; [done|].
  unfold utf8_encode_all in *. cbn [flat_map].
  by rewrite run_app, run_utf8_encode, IH.
Qed.

Lemma serialize_seen items : serialize true items = (true, items).
Proof. induction items as [|c rest IH]; [done|]. simpl. by rewrite IH. Qed.

Lemma serialize_unseen items :
  serialize false items =
    (match items with [] => false | _ :: _ => true end, strip_bom items).
Proof.
  destruct items as [|c rest]; [done|]. simpl.
  rewrite serialize_seen. by destruct (c =? BOM).
Qed.

Lemma serialize_app seen a b :
  serialize seen (a ++ b) =
    let '(s1, o1) := serialize seen a in
    let '(s2, o2) := serialize s1 b in (s2, o1 ++ o2).
Proof.
  revert seen. induction a as [|c a IH]; intros seen; simpl.
  - by destruct (serialize seen b).
  - destruct seen; [|destruct (c =? BOM)]; rewrite IH;
      destruct (serialize true a) as [s1 o1], (serialize s1 b) as [s2 o2]; done.
Qed.

Lemma utf16_all_app a b : utf16_all (a ++ b) = utf16_all a ++ utf16_all b.
Proof. apply flat_map_app. Qed.

(** What the loop accumulates is what one call on the whole byte stream
    would return. *)
Lemma decode_chunks_concat decoder values :
  let dec0 := if do_not_flush decoder then decoder else new in
  snd (decode_chunks decoder values) =
    utf16_all (snd (serialize (BOM_seen dec0)
                      (snd (run (utf8 dec0) (concat values))))).
Proof.
  revert decoder. induction values as [|v rest IH]; intros decoder dec0.
  - simpl. by destruct (BOM_seen dec0).
  - cbn [decode_chunks concat]. unfold decode_stream. fold dec0.
    rewrite run_app.
    destruct (run (utf8 dec0) v) as [d1 o1].
    destruct (serialize (BOM_seen dec0) o1) as [s1 out1] eqn:E1.
    specialize (IH {| utf8 := d1; BOM_seen := s1; do_not_flush := true |}).
    cbn in IH.
    destruct (decode_chunks _ rest) as [dec2 out2]. cbn in IH. subst out2.
    destruct (run d1 (concat rest)) as [d2 o2]. cbn.
    rewrite serialize_app, E1.
    destruct (serialize s1 o2) as [s2 out2]. cbn.
    by rewrite utf16_all_app.
Qed.

Lemma decode_chunks_valid values cps :
  Forall (fun cp => is_scalar cp = true) cps ->
  concat values = utf8_encode_all cps ->
  snd (decode_chunks new values) = utf16_all (strip_bom cps).
Proof.
  intros Hcps Hcat. rewrite decode_chunks_concat. cbn.
  by rewrite Hcat, run_utf8_encode_all, serialize_unseen.
Qed.

Lemma decode_chunks_truncated values cps c p q :
  Forall (fun cp => is_scalar cp = true) cps ->
  is_scalar c = true -> utf8_encode c = p ++ q -> p <> [] -> q <> [] ->
  concat values = utf8_encode_all cps ++ p ->
  snd (decode_chunks new values) = utf16_all (strip_bom cps).
Proof.
  intros Hcps Hc Hpq Hp Hq Hcat. rewrite decode_chunks_concat. cbn.
  rewrite Hcat, run_app, run_utf8_encode_all by done.
  pose proof (run_proper_prefix c p q Hc Hpq Hp Hq) as Hsilent.
  destruct (run utf8_init p) as [d o]. cbn in Hsilent. subst o.
  by rewrite app_nil_r, serialize_unseen.
Qed.

(** ** The updaters *)

Lemma trimStart_blank s :
  Forall (fun c => isWhiteSpace c = true) s -> trimStart s = [].
Proof. induction 1 as [|c s Hc _ IH]; [done|]. simpl. by rewrite Hc. Qed.

Lemma trim_blank s :
  Forall (fun c => isWhiteSpace c = true) s -> trim s = [].
Proof. intros H. unfold trim, trimEnd. rewrite (trimStart_blank s H). reflexivity. Qed.

Lemma appendFragment_nil target prev : appendFragment target [] prev = prev.
Proof.
  unfold appendFragment. rewrite <- (list_fmap_id prev) at 2.
  apply list_fmap_ext. intros _ [i c ty ts str] _. cbn.
  case_decide; [|done]. by rewrite app_nil_r.
Qed.

Lemma appendFragment_app target c1 c2 prev :
  appendFragment target c2 (appendFragment target c1 prev) =
  appendFragment target (c1 ++ c2) prev.
Proof.
  unfold appendFragment. rewrite <- list_fmap_compose. apply list_fmap_ext.
  intros _ m _. cbn. repeat (case_decide; cbn in *); try done.
  by rewrite app_assoc.
Qed.

Lemma applyAll_app st us vs : applyAll st (us ++ vs) = applyAll (applyAll st us) vs.
Proof. apply foldl_app. Qed.

Lemma observed_app st us vs :
  observed st (us ++ vs) = observed st us ++ observed (applyAll st us) vs.
Proof.
  revert st. induction us as [|u us IH]; intros st; [done|].
  cbn. by rewrite IH.
Qed.

Lemma readLoop_threw target decoder values e :
  snd (readLoop target decoder values e) =
    match e with EndOfStream => false | ReadFailure => true end.
Proof.
  revert decoder. induction values as [|v rest IH]; intros decoder.
  - by destruct e.
  - cbn. destruct (decode_stream decoder v) as [d' chunk].
    specialize (IH d'). by destruct (readLoop target d' rest e).
Qed.

(** The loop as a whole appends the decoded text of the chunks read. *)
Lemma applyAll_readLoop st target decoder values e :
  applyAll st (fst (readLoop target decoder values e)) =
  apply st (SetMessages (appendFragment target (snd (decode_chunks decoder values)))).
Proof.
  revert st decoder. induction values as [|v rest IH]; intros st decoder.
  - destruct e; cbn [readLoop fst decode_chunks snd applyAll foldl apply];
      rewrite appendFragment_nil; by destruct st.
  - cbn. destruct (decode_stream decoder v) as [d' chunk].
    specialize (IH (apply st (SetMessages (appendFragment target chunk))) d').
    destruct (readLoop target d' rest e) as [us threw].
    destruct (decode_chunks d' rest) as [d'' out].
    cbn [fst snd applyAll foldl] in *. rewrite IH.
    cbn [apply messages input isLoading]. by rewrite appendFragment_app.
Qed.

Lemma accepted_start st clk :
  accepted st = true ->
  exists s, start st clk = Some s /\
    updates s = [ SetMessages (appendMessage (userMessage s)); SetInput [];
                  SetIsLoading true;
                  SetMessages (appendMessage (assistantMessage s)) ] /\
    userMessage s =
      {| id := pretty (now_user clk); content := trim (input st); type := user;
         timestamp := date_user clk; isStreaming := None |} /\
    assistantMessage s =
      {| id := pretty (now_assistant clk + 1)%Z; content := []; type := assistant;
         timestamp := date_assistant clk; isStreaming := Some true |}.
Proof.
  unfold accepted, start. intros [Ht Hl]%andb_true_iff.
  rewrite Ht. destruct (isLoading st); [done|]. cbn. eauto.
Qed.

Lemma rejected_start st clk : accepted st = false -> start st clk = None.
Proof.
  unfold accepted, start.
  by destruct (truthy (trim (input st))), (isLoading st).
Qed.

(** ** One call of [handleSubmit], start to end *)

Lemma applyAll_exchange st target response :
  applyAll st (exchange target response) =
    {| messages := outcome target response (messages st);
       input := input st; isLoading := false |}.
Proof.
  unfold exchange, tryBlock, outcome.
  destruct response as [|status [[values e]|]]; [done| |done].
  cbn [chunks ending].
  pose proof (readLoop_threw target new values e) as Hthrew.
  pose proof (applyAll_readLoop st target new values e) as Hloop.
  destruct (readLoop target new values e) as [us threw].
  cbn [fst snd] in *. subst threw.
  destruct e; rewrite !applyAll_app, Hloop; reflexivity.
Qed.

Lemma applyAll_handleSubmit st clk response s :
  start st clk = Some s ->
  finalState st clk response =
    {| messages :=
         outcome (id (assistantMessage s)) response
           ((messages st ++ [userMessage s]) ++ [assistantMessage s]);
       input := []; isLoading := false |}.
Proof.
  intros Hs. unfold finalState, handleSubmit. rewrite Hs.
  rewrite applyAll_app, applyAll_exchange. f_equal.
  all: unfold start in Hs; destruct (_ || _); simplify_eq; reflexivity.
Qed.

Lemma lookup_placeholder (l : list Message) um am :
  ((l ++ [um]) ++ [am]) !! S (length l) = Some am.
Proof.
  rewrite lookup_app_r; rewrite length_app; cbn; [|lia].
  by replace (S (length l) - (length l + 1))%nat with 0%nat by lia.
Qed.

(** Whatever the response, the placeholder ends finalized, with the
    content [terminalContent] gives, and the busy flag ends cleared. *)
Lemma handleSubmit_terminal st clk response :
  accepted st = true ->
  placeholder st (finalState st clk response) =
    Some {| id := pretty (now_assistant clk + 1)%Z;
            content := terminalContent response;
            type := assistant; timestamp := date_assistant clk;
            isStreaming := Some false |} /\
  isLoading (finalState st clk response) = false.
Proof.
  intros Hacc. destruct (accepted_start st clk Hacc) as (s & Hs & _ & _ & Ham).
  rewrite (applyAll_handleSubmit st clk response s Hs). split; [|done].
  unfold placeholder, placeholderIndex. cbn [messages].
  pose proof (lookup_placeholder (messages st) (userMessage s) (assistantMessage s)) as Hl.
  rewrite Ham in *. cbn [id].
  unfold outcome, terminalContent.
  destruct response as [|status [[values e]|]]; [|destruct e|];
    cbn [ending chunks]; unfold finalize, replaceAndFinalize, appendFragment;
    rewrite !list_lookup_fmap, Hl; cbn;
    repeat (destruct (decide (pretty _ = pretty _)) as [_|?]; [cbn|done]);
    reflexivity.
Qed.

(** ** Failure and success of an exchange *)

(** C1, as stated, fails: a response with status 500 and a readable body
    is not turned into the failure state; its body becomes the
    placeholder's content. *)
Lemma non_success_status_is_streamed :
  ok 500 = false /\
  accepted exampleState = true /\
  content <$> placeholder exampleState
                (finalState exampleState exampleClock
                   (streamed 500 [bytes "Internal Server Error"]))
    = Some (lit "Internal Server Error") /\
  lit "Internal Server Error" <> errorMessage.
Proof. vm_compute. repeat split; discriminate. Qed.

(** C1, amended: the status of the response is never inspected.  For every
    status, also a non-success one, the exchange ends in the failure state
    (fixed error message, finalized) exactly when the response has no
    readable body or a read of the body fails; when the body is read to its
    end, the placeholder is finalized with the decoded body as content, as
    for a success status. *)
Theorem status_is_not_inspected st clk status body :
  accepted st = true ->
  finalState st clk (FetchResolved status body) =
    finalState st clk (FetchResolved 200 body) /\
  content <$> placeholder st (finalState st clk (FetchResolved status body)) =
    Some match body with
         | Some {| chunks := values; ending := EndOfStream |} =>
             snd (decode_chunks new values)
         | _ => errorMessage
         end /\
  isStreaming <$> placeholder st (finalState st clk (FetchResolved status body)) =
    Some (Some false).
Proof.
  intros Hacc. split; [|split].
  - destruct (accepted_start st clk Hacc) as (s & Hs & _).
    by rewrite !(applyAll_handleSubmit st clk _ s Hs).
  - destruct (handleSubmit_terminal st clk (FetchResolved status body) Hacc)
      as [-> _]. reflexivity.
  - by destruct (handleSubmit_terminal st clk (FetchResolved status body) Hacc)
      as [-> _].
Qed.

Lemma status_is_not_inspected_witness :
  accepted exampleState = true /\
  isStreaming <$> placeholder exampleState
                    (finalState exampleState exampleClock
                       (FetchResolved 500 None)) = Some (Some false).
Proof.
  split; [reflexivity|].
  apply (status_is_not_inspected exampleState exampleClock 500 None).
  reflexivity.
Defined.

(** C4: when a read fails after any number of chunks have been applied,
    the text accumulated so far is in the placeholder, still streaming,
    right before the [catch] block runs, and the [catch] block leaves
    exactly the fixed message, finalized. *)
Theorem error_replaces_partial_content st clk status values :
  accepted st = true ->
  (exists pre,
     handleSubmit st clk (interrupted status values) =
       pre ++ caught (pretty (now_assistant clk + 1)%Z) /\
     content <$> placeholder st (applyAll st pre) =
       Some (snd (decode_chunks new values)) /\
     isStreaming <$> placeholder st (applyAll st pre) = Some (Some true)) /\
  content <$> placeholder st (finalState st clk (interrupted status values)) =
    Some errorMessage /\
  isStreaming <$> placeholder st (finalState st clk (interrupted status values)) =
    Some (Some false).
Proof.
  intros Hacc. split.
  - destruct (accepted_start st clk Hacc) as (s & Hs & Hus & _ & Ham).
    unfold handleSubmit, interrupted, exchange, tryBlock. rewrite Hs.
    cbn [chunks ending].
    pose proof (readLoop_threw (id (assistantMessage s)) new values ReadFailure) as Ht.
    pose proof (fun st' =>
      applyAll_readLoop st' (id (assistantMessage s)) new values ReadFailure) as Hl.
    destruct (readLoop _ new values ReadFailure) as [us threw].
    cbn [fst snd] in *. subst threw.
    exists (updates s ++ us). split.
    { rewrite Ham. cbn [id]. by rewrite <- app_assoc. }
    rewrite applyAll_app, Hl, Hus.
    unfold placeholder, placeholderIndex, appendFragment, appendMessage. cbn.
    rewrite !list_lookup_fmap, lookup_placeholder, Ham. cbn.
    by destruct (decide (pretty _ = pretty _)).
  - by destruct (handleSubmit_terminal st clk (interrupted status values) Hacc)
      as [-> _].
Qed.

Lemma error_replaces_partial_content_witness :
  accepted exampleState = true /\
  content <$> placeholder exampleState
                (finalState exampleState exampleClock
                   (interrupted 200 [bytes "Bue"; bytes "nos d"]))
    = Some errorMessage.
Proof.
  split; [reflexivity|].
  apply (error_replaces_partial_content exampleState exampleClock 200
           [bytes "Bue"; bytes "nos d"]).
  reflexivity.
Defined.

(** ** The guard *)

(** C5: a submission whose text is empty or made of white space only
    issues no state update, sends no request and leaves the state, and the
    session around it, as they were. *)
Theorem blank_submission_is_ignored st clk response pending :
  Forall (fun c => isWhiteSpace c = true) (input st) ->
  handleSubmit st clk response = [] /\
  dispatched st clk = None /\
  finalState st clk response = st /\
  step {| ui := st; tasks := pending |} (Submitted clk) =
    {| ui := st; tasks := pending |}.
Proof.
  intros Hblank.
  assert (start st clk = None) as Hs.
  { unfold start. by rewrite (trim_blank _ Hblank). }
  unfold finalState, handleSubmit, dispatched, step, react. cbn [ui tasks].
  by rewrite Hs.
Qed.

Lemma blank_submission_is_ignored_witness :
  Forall (fun c => isWhiteSpace c = true) (lit "  ") /\
  handleSubmit
    {| messages := messages (initialState 0); input := lit "  "; isLoading := false |}
    exampleClock FetchRejected = [].
Proof.
  assert (Forall (fun c => isWhiteSpace c = true) (lit "  ")) as H
    by (repeat constructor).
  split; [exact H|].
  apply (blank_submission_is_ignored
           {| messages := messages (initialState 0); input := lit "  ";
              isLoading := false |} exampleClock FetchRejected [] H).
Defined.

(** ** Decoding across chunk boundaries *)

Lemma utf16_units cp u :
  cp <= 0x10FFFF -> u ∈ utf16 cp -> u = cp \/ 0xD800 <= u <= 0xDFFF.
Proof.
  intros Hcp. unfold utf16. destruct (N.ltb_spec cp 0x10000) as [Hlt|Hge].
  - intros ->%list_elem_of_singleton. by left.
  - rewrite N.shiftr_div_pow2, (N.land_ones _ 10).
    intros [->|[->|[]%elem_of_nil]%elem_of_cons]%elem_of_cons; right.
    + change (2 ^ 10) with 1024. lia.
    + change (2 ^ 10) with 1024. lia.
Qed.

Lemma strip_bom_subseteq cps : strip_bom cps ⊆ cps.
Proof.
  destruct cps as [|c rest]; [done|]. cbn.
  destruct (c =? BOM); [|done]. intros x Hx. by right.
Qed.

Lemma no_replacement_introduced cps :
  Forall (fun cp => is_scalar cp = true) cps ->
  REPLACEMENT ∉ cps -> REPLACEMENT ∉ utf16_all (strip_bom cps).
Proof.
  intros Hcps Hnot Hin. apply Hnot, strip_bom_subseteq.
  unfold utf16_all in Hin. apply list_elem_of_In, in_flat_map in Hin
    as (cp & Hcp%list_elem_of_In & Hu%list_elem_of_In).
  assert (is_scalar cp = true) as Hs.
  { rewrite Forall_forall in Hcps. by apply Hcps, strip_bom_subseteq. }
  apply is_scalar_range in Hs.
  destruct (utf16_units cp REPLACEMENT) as [->|Hsur]; [lia|done|done|].
  unfold REPLACEMENT in Hsur. lia.
Qed.

(** C9, as stated, fails for one character: the byte-order mark U+FEFF,
    encoded EF BB BF, opening the stream and split between two chunks.  The
    stream is valid UTF-8, yet the accumulated content is empty: it does
    not contain the character. *)
Lemma leading_bom_is_dropped :
  [[xef; xbb]; [xbf]] ≠ [] /\
  concat [[xef; xbb]; [xbf]] = utf8_encode_all [0xFEFF] /\
  is_scalar 0xFEFF = true /\
  accepted exampleState = true /\
  content <$> placeholder exampleState
                (finalState exampleState exampleClock
                   (streamed 200 [[xef; xbb]; [xbf]])) = Some [] /\
  utf16_all [0xFEFF] = [0xFEFF].
Proof. vm_compute. repeat split; discriminate. Qed.

(** C9, amended: for every byte stream that is the UTF-8 encoding of a
    sequence of characters, cut into chunks at any positions, the content
    accumulated once all chunks are applied is the UTF-16 text of these
    characters, apart from a byte-order mark U+FEFF in first position,
    which the decoder strips; no replacement character appears that the
    stream does not itself encode. *)
Theorem split_characters_are_reassembled st clk status values cps :
  accepted st = true ->
  Forall (fun cp => is_scalar cp = true) cps ->
  concat values = utf8_encode_all cps ->
  content <$> placeholder st (finalState st clk (streamed status values)) =
    Some (utf16_all (strip_bom cps)) /\
  isStreaming <$> placeholder st (finalState st clk (streamed status values)) =
    Some (Some false) /\
  (REPLACEMENT ∉ cps -> REPLACEMENT ∉ utf16_all (strip_bom cps)).
Proof.
  intros Hacc Hcps Hcat.
  destruct (handleSubmit_terminal st clk (streamed status values) Hacc) as [-> _].
  cbn. rewrite (decode_chunks_valid values cps Hcps Hcat).
  repeat split. by apply no_replacement_introduced.
Qed.

Lemma split_characters_are_reassembled_witness :
  accepted exampleState = true /\
  Forall (fun cp => is_scalar cp = true) [0x41; 0x20AC; 0x1F600] /\
  concat [[x41; xe2]; [x82]; [xac; xf0; x9f]; [x98; x80]] =
    utf8_encode_all [0x41; 0x20AC; 0x1F600] /\
  content <$> placeholder exampleState
                (finalState exampleState exampleClock
                   (streamed 200 [[x41; xe2]; [x82]; [xac; xf0; x9f]; [x98; x80]]))
    = Some [0x41; 0x20AC; 0xD83D; 0xDE00].
Proof.
  assert (Forall (fun cp => is_scalar cp = true) [0x41; 0x20AC; 0x1F600]) as H
    by (repeat constructor).
  split; [reflexivity|]. split; [exact H|]. split; [reflexivity|].
  apply (split_characters_are_reassembled exampleState exampleClock 200
           [[x41; xe2]; [x82]; [xac; xf0; x9f]; [x98; x80]]
           [0x41; 0x20AC; 0x1F600]); [reflexivity|exact H|reflexivity].
Defined.

(** C10: when the stream ends inside a multi-byte character (after the
    bytes [p], a proper non-empty prefix of the encoding of [c]), the
    exchange ends on the success path, the placeholder holds the text of
    the complete characters only, and the final state is the one the
    stream without these trailing bytes gives: they are dropped silently. *)
Theorem unfinished_sequence_is_dropped st clk status values cps c p q :
  accepted st = true ->
  Forall (fun cp => is_scalar cp = true) cps ->
  is_scalar c = true -> utf8_encode c = p ++ q -> p <> [] -> q <> [] ->
  concat values = utf8_encode_all cps ++ p ->
  content <$> placeholder st (finalState st clk (streamed status values)) =
    Some (utf16_all (strip_bom cps)) /\
  isStreaming <$> placeholder st (finalState st clk (streamed status values)) =
    Some (Some false) /\
  finalState st clk (streamed status values) =
    finalState st clk (streamed status [utf8_encode_all cps]).
Proof.
  intros Hacc Hcps Hc Hpq Hp Hq Hcat.
  pose proof (decode_chunks_truncated values cps c p q Hcps Hc Hpq Hp Hq Hcat) as Hd.
  assert (snd (decode_chunks new [utf8_encode_all cps]) = utf16_all (strip_bom cps))
    as Hd'.
  { apply decode_chunks_valid; [done|]. cbn. by rewrite app_nil_r. }
  split; [|split].
  - destruct (handleSubmit_terminal st clk (streamed status values) Hacc) as [-> _].
    cbn. by rewrite Hd.
  - by destruct (handleSubmit_terminal st clk (streamed status values) Hacc)
      as [-> _].
  - destruct (accepted_start st clk Hacc) as (s & Hs & _).
    rewrite !(applyAll_handleSubmit st clk _ s Hs).
    unfold streamed, outcome. cbn [chunks ending]. by rewrite Hd, Hd'.
Qed.

Lemma unfinished_sequence_is_dropped_witness :
  accepted exampleState = true /\
  utf8_encode 0x20AC = [xe2; x82] ++ [xac] /\
  content <$> placeholder exampleState
                (finalState exampleState exampleClock
                   (streamed 200 [[x41]; [xe2; x82]]))
    = Some [0x41].
Proof.
  split; [reflexivity|]. split; [reflexivity|].
  apply (unfinished_sequence_is_dropped exampleState exampleClock 200
           [[x41]; [xe2; x82]] [0x41] 0x20AC [xe2; x82] [xac]);
    [reflexivity|repeat constructor|reflexivity|reflexivity|done|done|reflexivity].
Defined.

(** ** Fragments aimed at a missing or finished message *)

(** C2, as stated, fails: on the seeded conversation, a fragment for an id
    that is absent leaves the conversation as it is, and a fragment for
    the greeting, which is not streaming, is appended to it; the
    specification's operation fails with [NotFoundError] in both cases. *)
Lemma fragment_for_missing_target_is_a_noop :
  let prev := messages (initialState 0) in
  spec_appendFragment "42" (lit "x") prev = inl NotFoundError /\
  appendFragment_outcome "42" (lit "x") prev = inr prev /\
  spec_appendFragment "1" (lit "x") prev = inl NotFoundError /\
  appendFragment_outcome "1" (lit "x") prev =
    inr [ {| id := "1"; content := greeting ++ lit "x"; type := assistant;
             timestamp := 0; isStreaming := None |} ].
Proof. vm_compute. repeat split. Qed.

(** C2, amended: applying a fragment never fails.  It keeps the number
    and order of the messages: every message that does not carry the target
    id stays exactly as it is, at its position, and no message changes its
    id, role or timestamp; when no message carries the target id the
    conversation is unchanged (a silent no-op); every message that carries
    the target id gets the fragment appended to its content, whatever its
    status, and keeps that status. *)
Theorem appendFragment_never_fails target chunk prev :
  (exists next, appendFragment_outcome target chunk prev = inr next /\
                length next = length prev) /\
  (forall i, appendFragment target chunk prev !! i = None <-> prev !! i = None) /\
  (forall i m, prev !! i = Some m -> id m <> target ->
     appendFragment target chunk prev !! i = Some m) /\
  (forall i m, prev !! i = Some m -> id m = target ->
     appendFragment target chunk prev !! i =
       Some {| id := id m; content := content m ++ chunk; type := type m;
               timestamp := timestamp m; isStreaming := isStreaming m |}) /\
  identity <$> appendFragment target chunk prev = identity <$> prev /\
  (Forall (fun m => id m <> target) prev ->
   appendFragment target chunk prev = prev).
Proof.
  repeat split.
  - eexists. split; [reflexivity|]. apply length_fmap.
  - unfold appendFragment. rewrite list_lookup_fmap. by destruct (prev !! i).
  - intros Hi. unfold appendFragment. by rewrite list_lookup_fmap, Hi.
  - intros i m Hm Hid. unfold appendFragment.
    rewrite list_lookup_fmap, Hm. cbn. by case_decide.
  - intros i m Hm Hid. unfold appendFragment.
    rewrite list_lookup_fmap, Hm. cbn. by case_decide.
  - unfold appendFragment. rewrite <- list_fmap_compose. apply list_fmap_ext.
    intros _ m _. cbn. by case_decide.
  - intros Habsent. unfold appendFragment.
    rewrite <- (list_fmap_id prev) at 2. apply list_fmap_ext.
    intros i m Hm. rewrite Forall_forall in Habsent.
    case_decide as Hid; [|done].
    by destruct (Habsent m (list_elem_of_lookup_2 _ _ _ Hm)).
Qed.

(** On a three-message conversation at rest, a fragment for the finished
    answer is appended to it and the two other messages stay as they are;
    a fragment for an absent id changes nothing. *)
Lemma appendFragment_never_fails_witness :
  appendFragment "1700000000001" (lit "!") exampleConversation !! 0%nat =
    exampleConversation !! 0%nat /\
  appendFragment "1700000000001" (lit "!") exampleConversation !! 1%nat =
    exampleConversation !! 1%nat /\
  appendFragment "1700000000001" (lit "!") exampleConversation !! 2%nat =
    Some {| id := "1700000000001"; content := lit "Buenos" ++ lit "!";
            type := assistant; timestamp := 1700000000000;
            isStreaming := Some false |} /\
  appendFragment "42" (lit "!") exampleConversation = exampleConversation.
Proof.
  pose proof (appendFragment_never_fails "1700000000001" (lit "!")
                exampleConversation) as (_ & _ & Hother & Htarget & _ & _).
  pose proof (appendFragment_never_fails "42" (lit "!") exampleConversation)
    as (_ & _ & _ & _ & _ & Habsent).
  split; [|split; [|split]].
  - apply Hother; [reflexivity|discriminate].
  - apply Hother; [reflexivity|discriminate].
  - exact (Htarget 2%nat _ eq_refl eq_refl).
  - apply Habsent. repeat constructor; discriminate.
Defined.

(** ** Message identifiers *)

(** Within one submission the two identifiers differ as long as the clock
    does not step back between the two readings. *)
Lemma ids_of_one_submission_differ st clk s :
  start st clk = Some s -> (now_user clk <= now_assistant clk)%Z ->
  id (userMessage s) <> id (assistantMessage s).
Proof.
  unfold start. destruct (_ || _); [done|]. intros [= <-] Hle. cbn.
  intros Heq%(inj pretty). lia.
Qed.

(** C3 does not hold of the code: identifiers are clock readings, and a
    submission made one millisecond after another takes, for its user
    message, the identifier of the earlier assistant message. *)
Theorem message_ids_collide :
  id <$> messages (ui (steps (initialSession 0) twoQuickSubmissions)) =
    ["1"; "1700000000000"; "1700000000001"; "1700000000001"; "1700000000002"] /\
  ~ NoDup (id <$> messages (ui (steps (initialSession 0) twoQuickSubmissions))).
Proof.
  assert (id <$> messages (ui (steps (initialSession 0) twoQuickSubmissions)) =
    ["1"; "1700000000000"; "1700000000001"; "1700000000001"; "1700000000002"])
    as -> by (vm_compute; reflexivity).
  split; [reflexivity|].
  intros Hnd. apply NoDup_cons in Hnd as [_ Hnd].
  apply NoDup_cons in Hnd as [_ Hnd]. apply NoDup_cons in Hnd as [Hin _].
  apply Hin. by left.
Qed.

(** ** Monotonic growth of the placeholder *)

Lemma extendsAt_appendMessage i m : extendsAt i (SetMessages (appendMessage m)).
Proof.
  intros st m0 Hm0. exists m0. split; [|done].
  cbn. unfold appendMessage. by apply lookup_app_l_Some.
Qed.

Lemma extendsAt_appendFragment i target chunk :
  extendsAt i (SetMessages (appendFragment target chunk)).
Proof.
  intros st m Hm. cbn. unfold appendFragment. rewrite list_lookup_fmap, Hm. cbn.
  eexists. split; [reflexivity|].
  case_decide; cbn; [by apply prefix_app_r|done].
Qed.

Lemma extendsAt_finalize i target : extendsAt i (SetMessages (finalize target)).
Proof.
  intros st m Hm. cbn. unfold finalize. rewrite list_lookup_fmap, Hm. cbn.
  eexists. split; [reflexivity|]. by case_decide.
Qed.

Lemma extendsAt_SetInput i s : extendsAt i (SetInput s).
Proof. intros st m Hm. by exists m. Qed.

Lemma extendsAt_SetIsLoading i b : extendsAt i (SetIsLoading b).
Proof. intros st m Hm. by exists m. Qed.

Lemma extendsAt_readLoop i target decoder values e :
  Forall (extendsAt i) (fst (readLoop target decoder values e)).
Proof.
  revert decoder. induction values as [|v rest IH]; intros decoder.
  - destruct e; constructor.
  - cbn. destruct (decode_stream decoder v) as [d' chunk].
    specialize (IH d'). destruct (readLoop target d' rest e) as [us threw].
    constructor; [apply extendsAt_appendFragment|exact IH].
Qed.

Lemma extendsAt_handleSubmit i st clk status values :
  Forall (extendsAt i) (handleSubmit st clk (streamed status values)).
Proof.
  unfold handleSubmit, start. destruct (_ || _); [constructor|].
  cbn [updates assistantMessage id].
  apply Forall_app. split.
  - repeat constructor; auto using extendsAt_appendMessage,
      extendsAt_SetInput, extendsAt_SetIsLoading.
  - unfold exchange, tryBlock, streamed. cbn [chunks ending].
    pose proof (readLoop_threw (pretty (now_assistant clk + 1)%Z) new values
                  EndOfStream) as Ht.
    pose proof (extendsAt_readLoop i (pretty (now_assistant clk + 1)%Z) new values
                  EndOfStream) as Hl.
    destruct (readLoop _ new values EndOfStream) as [us threw].
    cbn [fst snd] in *. subst threw.
    repeat (apply Forall_app; split); try done;
      repeat constructor; auto using extendsAt_finalize, extendsAt_SetIsLoading.
Qed.

Lemma growing_cons a l :
  match l with [] => True | b :: _ => a `prefix_of` b end ->
  growing l -> growing (a :: l).
Proof. destruct l; cbn; auto. Qed.

Lemma omap_cons {A B} (f : A -> option B) x l :
  omap f (x :: l) = match f x with Some y => y :: omap f l | None => omap f l end.
Proof. reflexivity. Qed.

Lemma growing_observed i st us :
  Forall (extendsAt i) us ->
  growing (omap (fun s => content <$> messages s !! i) (observed st us)).
Proof.
  intros Hus. revert st. induction Hus as [|u us Hu Hus IH]; intros st; [done|].
  cbn [observed]. rewrite omap_cons.
  destruct (messages (apply st u) !! i) as [m|] eqn:Hm; cbn [fmap option_fmap option_map];
    [|apply IH].
  apply growing_cons; [|apply IH].
  destruct Hus as [|u' us' Hu' _]; [done|].
  cbn [observed]. rewrite omap_cons.
  destruct (Hu' _ _ Hm) as (m' & -> & Hpre). done.
Qed.

(** C7: along a successful exchange (the body is read to its end), the
    successive contents of the assistant placeholder, in every state shown
    from the moment it is inserted to the end of the handler, form a chain
    for the prefix order: each value extends the previous one. *)
Theorem placeholder_content_grows st clk status values :
  growing (placeholderContents st
             (observed st (handleSubmit st clk (streamed status values)))).
Proof. apply growing_observed, extendsAt_handleSubmit. Qed.

Example growth_of_a_two_chunk_reply :
  placeholderContents exampleState
    (observed exampleState
       (handleSubmit exampleState exampleClock
          (streamed 200 [bytes "Bue"; bytes "nos"])))
  = [lit ""; lit "Bue"; lit "Buenos"; lit "Buenos"; lit "Buenos"].
Proof. vm_compute. reflexivity. Qed.

(** ** The busy flag *)

Lemma readLoop_SetMessages target decoder values e :
  Forall (fun u => isSetMessages u = true) (fst (readLoop target decoder values e)).
Proof.
  revert decoder. induction values as [|v rest IH]; intros decoder.
  - destruct e; constructor.
  - cbn. destruct (decode_stream decoder v) as [d' chunk].
    specialize (IH d'). destruct (readLoop target d' rest e) as [us threw].
    by constructor.
Qed.

(** [finally] comes last, after updates of the conversation only. *)
Lemma exchange_shape target response :
  exists mid, exchange target response = mid ++ [SetIsLoading false] /\
              Forall (fun u => isSetMessages u = true) mid.
Proof.
  unfold exchange, tryBlock.
  destruct response as [|status [[values e]|]].
  - exists [SetMessages (replaceAndFinalize target errorMessage)].
    split; [done|by repeat constructor].
  - cbn [chunks ending].
    pose proof (readLoop_threw target new values e) as Ht.
    pose proof (readLoop_SetMessages target new values e) as Hl.
    destruct (readLoop target new values e) as [us threw].
    cbn [fst snd] in *. subst threw. destruct e.
    + exists (us ++ [SetMessages (finalize target)]). split.
      * by rewrite <- !app_assoc.
      * apply Forall_app. split; [done|by repeat constructor].
    + exists (us ++ [SetMessages (replaceAndFinalize target errorMessage)]). split.
      * by rewrite <- !app_assoc.
      * apply Forall_app. split; [done|by repeat constructor].
  - exists [SetMessages (replaceAndFinalize target errorMessage)].
    split; [done|by repeat constructor].
Qed.

Lemma observed_SetMessages st us :
  isLoading st = true -> Forall (fun u => isSetMessages u = true) us ->
  Forall (fun s => isLoading s = true) (observed st us).
Proof.
  intros Hst Hus. revert st Hst.
  induction Hus as [|u us Hu _ IH]; intros st Hst; [constructor|].
  destruct u; try discriminate. cbn [observed]. constructor; [done|].
  by apply IH.
Qed.

Lemma observed_snoc st us u :
  observed st (us ++ [u]) = observed st us ++ [applyAll st (us ++ [u])].
Proof. rewrite observed_app. cbn. by rewrite applyAll_app. Qed.

Lemma busyWhileStreaming_busy st0 st :
  isLoading st = true -> busyWhileStreaming st0 st = true.
Proof.
  unfold busyWhileStreaming. intros ->. by destruct (placeholderStreaming st0 st).
Qed.

Lemma busyWhileStreaming_short st0 st :
  (length (messages st) <= placeholderIndex st0)%nat ->
  busyWhileStreaming st0 st = true.
Proof.
  intros Hlen. unfold busyWhileStreaming, placeholderStreaming, placeholder.
  by rewrite lookup_ge_None_2.
Qed.

(** C8: in every state shown while [handleSubmit] runs, whatever the
    response (rejection, missing body, failing read, end of stream), a
    streaming placeholder comes with the busy flag set; when the
    submission is accepted, the flag is set by the third update, before the
    placeholder exists, and in the final state the flag is cleared and the
    placeholder is no longer streaming. *)
Theorem busy_flag_brackets_the_exchange st clk response :
  Forall (fun s => busyWhileStreaming st s = true)
    (observed st (handleSubmit st clk response)) /\
  (accepted st = true ->
   isLoading <$> observed st (handleSubmit st clk response) !! 2%nat = Some true /\
   last (observed st (handleSubmit st clk response)) =
     Some (finalState st clk response) /\
   isLoading (finalState st clk response) = false /\
   placeholderStreaming st (finalState st clk response) = false).
Proof.
  destruct (accepted st) eqn:Hacc; cycle 1.
  { unfold handleSubmit. rewrite (rejected_start st clk Hacc).
    split; [constructor|done]. }
  destruct (accepted_start st clk Hacc) as (s & Hs & Hus & Hum & Ham).
  destruct (exchange_shape (id (assistantMessage s)) response) as (mid & Hex & Hmid).
  pose proof (handleSubmit_terminal st clk response Hacc) as [Hterm Hclear].
  assert (handleSubmit st clk response =
            (updates s ++ mid) ++ [SetIsLoading false]) as Hhs.
  { unfold handleSubmit. by rewrite Hs, Hex, app_assoc. }
  assert (last (observed st (handleSubmit st clk response)) =
            Some (finalState st clk response)) as Hlast.
  { unfold finalState. rewrite Hhs, observed_snoc. apply last_snoc. }
  assert (placeholderStreaming st (finalState st clk response) = false) as Hquiet.
  { unfold placeholderStreaming. by rewrite Hterm. }
  split.
  - rewrite Hhs, observed_snoc, <- Hhs. fold (finalState st clk response).
    apply Forall_app. split.
    + rewrite observed_app, Hus. apply Forall_app. split.
      * cbn [observed]. repeat constructor.
        1-3: apply busyWhileStreaming_short; cbn; unfold appendMessage;
             rewrite length_app; cbn; unfold placeholderIndex; lia.
        by apply busyWhileStreaming_busy.
      * eapply Forall_impl; [apply observed_SetMessages; [done|exact Hmid]|].
        intros s'. apply busyWhileStreaming_busy.
    + repeat constructor. unfold busyWhileStreaming. by rewrite Hquiet.
  - intros _. split; [|done].
    unfold handleSubmit. rewrite Hs, observed_app, Hus. reflexivity.
Qed.

Lemma busy_flag_brackets_the_exchange_witness :
  accepted exampleState = true /\
  isLoading (finalState exampleState exampleClock
               (interrupted 200 [bytes "Bue"])) = false.
Proof.
  split; [reflexivity|].
  apply (busy_flag_brackets_the_exchange exampleState exampleClock
           (interrupted 200 [bytes "Bue"])).
  reflexivity.
Defined.

(** ** A single streaming message, under every interleaving *)

Lemma streamingCount_app l1 l2 :
  streamingCount (l1 ++ l2) = (streamingCount l1 + streamingCount l2)%nat.
Proof. induction l1 as [|m l1 IH]; cbn; [done|]. rewrite IH. lia. Qed.

Lemma streamingCount_0 l :
  streamingCount l = 0%nat <-> Forall (fun m => streaming m = false) l.
Proof.
  induction l as [|m l IH]; cbn; [by split|].
  rewrite Forall_cons, <- IH.
  destruct (streaming m); cbn; split;
    [lia|intros [? _]; done|intros ?; by split|intros [_ ?]; done].
Qed.

Lemma streamingCount_appendFragment target chunk l :
  streamingCount (appendFragment target chunk l) = streamingCount l.
Proof.
  unfold appendFragment. induction l as [|m l IH]; [done|]. csimpl.
  rewrite IH. f_equal. by case_decide.
Qed.

Lemma targeted_appendFragment target chunk t l :
  Forall (fun m => streaming m = true -> id m = t) l ->
  Forall (fun m => streaming m = true -> id m = t) (appendFragment target chunk l).
Proof.
  intros Hl. unfold appendFragment. apply Forall_fmap.
  eapply Forall_impl; [exact Hl|]. intros m Hm. cbn. by case_decide.
Qed.

Lemma streamingCount_finalize target l :
  Forall (fun m => streaming m = true -> id m = target) l ->
  streamingCount (finalize target l) = 0%nat.
Proof.
  unfold finalize. induction 1 as [|m l Hm _ IH]; [done|]. csimpl. rewrite IH.
  case_decide as Hid; cbn; [done|].
  destruct (streaming m) eqn:Hs; [|done]. by destruct Hid, Hm.
Qed.

Lemma streamingCount_replaceAndFinalize target text l :
  Forall (fun m => streaming m = true -> id m = target) l ->
  streamingCount (replaceAndFinalize target text l) = 0%nat.
Proof.
  unfold replaceAndFinalize. induction 1 as [|m l Hm _ IH]; [done|]. csimpl. rewrite IH.
  case_decide as Hid; cbn; [done|].
  destruct (streaming m) eqn:Hs; [|done]. by destruct Hid, Hm.
Qed.

Lemma inv_calm s : inv s -> calm (ui s).
Proof.
  unfold inv, calm. destruct (tasks s) as [|t [|]]; [| |done].
  - intros [_ ->]. split; [lia|done].
  - intros (Hbusy & Hle & _). split; [done|]. by rewrite Hbusy.
Qed.

Lemma calm_intro st n :
  streamingCount (messages st) = n -> (n <= 1)%nat ->
  (isLoading st = false -> n = 0%nat) -> calm st.
Proof. intros <-. by split. Qed.

(** Splits a statement about the states shown into one goal per state. *)
Ltac each_state :=
  repeat first [apply List.Forall_nil | apply List.Forall_cons].

(** After [catch] and [finally], or after the read that ends the stream,
    the single task is gone, nothing streams and the flag is cleared. *)
Lemma inv_settled st t f :
  isLoading st = true ->
  streamingCount (f (messages st)) = 0%nat ->
  Forall calm (observed st [SetMessages f; SetIsLoading false]) /\
  inv {| ui := applyAll st [SetMessages f; SetIsLoading false];
         tasks := delete 0%nat [t] |}.
Proof.
  intros Hbusy Hz. split.
  - cbn [observed]. each_state; by apply (calm_intro _ 0%nat); [|lia|].
  - by split.
Qed.

Lemma no_task_no_event (st : State) (ts : list Task) :
  inv {| ui := st; tasks := ts |} ->
  Forall calm (observed st []) /\ inv {| ui := applyAll st []; tasks := ts |}.
Proof. by split; [constructor|]. Qed.

Lemma inv_single st ts k t :
  inv {| ui := st; tasks := ts |} -> ts !! k = Some t ->
  k = 0%nat /\ ts = [t] /\ isLoading st = true /\
  (streamingCount (messages st) <= 1)%nat /\
  Forall (fun m => streaming m = true -> id m = taskTarget t) (messages st).
Proof.
  unfold inv. cbn. destruct ts as [|t' [|]]; [done| |done].
  intros (Hbusy & Hle & Htarget) Hk. destruct k; [|done].
  by injection Hk as ->.
Qed.

Lemma step_inv s e :
  inv s -> Forall calm (observed (ui s) (fst (react s e))) /\ inv (step s e).
Proof.
  intros Hinv. pose proof (inv_calm s Hinv) as Hcalm.
  unfold step. destruct s as [st ts]. cbn [ui tasks] in *.
  destruct e as [text|clk|k|k status hasBody|k value|k|k]; cbn [react ui tasks].
  - (* Typed *)
    cbn [fst snd observed applyAll foldl]. split; [each_state; exact Hcalm|].
    unfold inv in *. cbn in *. by destruct ts as [|t [|]].
  - (* Submitted *)
    destruct (start st clk) as [s|] eqn:Hs; [|by apply no_task_no_event].
    unfold start in Hs.
    destruct (negb (truthy (trim (input st))) || isLoading st) eqn:Hguard; [done|].
    apply orb_false_iff in Hguard as [_ Hidle].
    unfold inv in Hinv. cbn in Hinv. rewrite Hidle in Hinv.
    destruct ts as [|t [|]]; [|by destruct Hinv|done].
    destruct Hinv as [_ Hz]. injection Hs as <-.
    cbn [updates assistantMessage fst snd id].
    pose proof (proj1 (streamingCount_0 _) Hz) as Hnone.
    split.
    + cbn [observed]. each_state.
      * apply (calm_intro _ 0%nat); [|lia|done].
        cbn. unfold appendMessage. by rewrite streamingCount_app, Hz.
      * apply (calm_intro _ 0%nat); [|lia|done].
        cbn. unfold appendMessage. by rewrite streamingCount_app, Hz.
      * apply (calm_intro _ 0%nat); [|lia|done].
        cbn. unfold appendMessage. by rewrite streamingCount_app, Hz.
      * apply (calm_intro _ 1%nat); [|lia|done].
        cbn. unfold appendMessage. by rewrite !streamingCount_app, Hz.
    + unfold inv. cbn. unfold appendMessage.
      rewrite !streamingCount_app, Hz. cbn. split; [done|]. split; [lia|].
      rewrite !Forall_app. repeat split.
      * eapply Forall_impl; [exact Hnone|]. by intros m ->.
      * by each_state.
      * by each_state.
  - (* FetchRejects *)
    destruct (ts !! k) as [[target|target decoder]|] eqn:Hk;
      [|by apply no_task_no_event..].
    destruct (inv_single _ _ _ _ Hinv Hk) as (-> & -> & Hbusy & _ & Htarget).
    apply inv_settled; [done|]. by apply streamingCount_replaceAndFinalize.
  - (* FetchResolves *)
    destruct (ts !! k) as [[target|target decoder]|] eqn:Hk;
      [|by apply no_task_no_event..].
    destruct (inv_single _ _ _ _ Hinv Hk) as (-> & -> & Hbusy & Hle & Htarget).
    destruct hasBody.
    + split; [constructor|]. by unfold inv.
    + apply inv_settled; [done|]. by apply streamingCount_replaceAndFinalize.
  - (* ReadResolves *)
    destruct (ts !! k) as [[target|target decoder]|] eqn:Hk;
      [by apply no_task_no_event| |by apply no_task_no_event].
    destruct (inv_single _ _ _ _ Hinv Hk) as (-> & -> & Hbusy & Hle & Htarget).
    destruct (decode_stream decoder value) as [decoder' chunk]. cbn [fst snd].
    split.
    + cbn [observed]. each_state.
      apply (calm_intro _ (streamingCount (messages st))); [|done|cbn; by rewrite Hbusy].
      cbn. apply streamingCount_appendFragment.
    + unfold inv. cbn. rewrite streamingCount_appendFragment.
      split; [done|]. split; [done|]. by apply targeted_appendFragment.
  - (* ReadDone *)
    destruct (ts !! k) as [[target|target decoder]|] eqn:Hk;
      [by apply no_task_no_event| |by apply no_task_no_event].
    destruct (inv_single _ _ _ _ Hinv Hk) as (-> & -> & Hbusy & _ & Htarget).
    apply inv_settled; [done|]. by apply streamingCount_finalize.
  - (* ReadRejects *)
    destruct (ts !! k) as [[target|target decoder]|] eqn:Hk;
      [by apply no_task_no_event| |by apply no_task_no_event].
    destruct (inv_single _ _ _ _ Hinv Hk) as (-> & -> & Hbusy & _ & Htarget).
    apply inv_settled; [done|]. by apply streamingCount_replaceAndFinalize.
Qed.

Lemma watch_calm s es : inv s -> Forall calm (watch s es) /\ inv (steps s es).
Proof.
  revert s. induction es as [|e es IH]; intros s Hinv; [by split; [constructor|]|].
  destruct (step_inv s e Hinv) as [Hobs Hinv'].
  destruct (IH (step s e) Hinv') as [Hrest Hend].
  split; [|exact Hend]. cbn [watch]. by apply Forall_app.
Qed.

Lemma inv_initialSession mounted : inv (initialSession mounted).
Proof. by split. Qed.

(** C6: from the first render on, under every sequence of typing,
    submissions and settlements of the pending promises, in every state
    shown (also between two updates of one handler) at most one message is
    streaming. *)
Theorem at_most_one_streaming_message mounted es :
  Forall (fun st => (streamingCount (messages st) <= 1)%nat)
    (initialState mounted :: watch (initialSession mounted) es).
Proof.
  constructor; [cbn; lia|].
  eapply Forall_impl; [apply watch_calm, inv_initialSession|].
  by intros st [Hle _].
Qed.

(** Under every interleaving, a state shown with the busy flag cleared
    has no streaming message. *)
Lemma flag_set_while_streaming mounted es :
  Forall (fun st => isLoading st = false -> streamingCount (messages st) = 0%nat)
    (watch (initialSession mounted) es).
Proof.
  eapply Forall_impl; [apply watch_calm, inv_initialSession|].
  by intros st [_ Hidle].
Qed.

(** The bound is reached: during an exchange one message is streaming. *)
Example one_streaming_message_during_exchange :
  streamingCount
    (messages (ui (steps (initialSession 0)
                     [Typed (lit "Hola"); Submitted exampleClock;
                      FetchResolves 0 200 true; ReadResolves 0 (bytes "Bue")])))
  = 1%nat.
Proof. vm_compute. reflexivity. Qed.

(** ** The session runs [handleSubmit]

    Left alone, the session handling the events of one exchange shows
    exactly the states of [handleSubmit]: the two presentations of the
    handler agree. *)

Lemma watch_reads st target decoder values e :
  watch {| ui := st; tasks := [AwaitRead target decoder] |}
    (map (ReadResolves 0) values ++
     [match e with EndOfStream => ReadDone 0 | ReadFailure => ReadRejects 0 end]) =
  observed st
    (fst (readLoop target decoder values e) ++
     match e with
     | EndOfStream => [SetMessages (finalize target); SetIsLoading false]
     | ReadFailure => caught target
     end).
Proof.
  revert st decoder. induction values as [|v rest IH]; intros st decoder.
  - destruct e; cbn; by rewrite ?app_nil_r.
  - cbn [map app watch readLoop]. unfold step. cbn [react ui tasks lookup list_lookup].
    destruct (decode_stream decoder v) as [d' chunk]. cbn [fst snd].
    specialize (IH (apply st (SetMessages (appendFragment target chunk))) d').
    destruct (readLoop target d' rest e) as [us threw]. cbn [fst] in *.
    cbn [insert list_insert applyAll foldl]. rewrite IH. reflexivity.
Qed.

Lemma watch_idle st es :
  (forall e, e ∈ es -> match e with Typed _ | Submitted _ => False | _ => True end) ->
  watch {| ui := st; tasks := [] |} es = [].
Proof.
  induction es as [|e es IH]; intros Hes; [done|].
  assert (step {| ui := st; tasks := [] |} e = {| ui := st; tasks := [] |}
          /\ fst (react {| ui := st; tasks := [] |} e) = []) as [Hstep Hnone].
  { pose proof (Hes e (list_elem_of_here _ _)) as He. unfold step.
    by destruct e. }
  cbn [watch]. rewrite Hstep, Hnone. apply IH.
  intros e' He'. apply Hes. by right.
Qed.

Lemma watch_script st clk response :
  watch {| ui := st; tasks := [] |} (script clk response) =
  observed st (handleSubmit st clk response).
Proof.
  unfold script, handleSubmit. cbn [watch]. unfold step. cbn [react ui tasks].
  destruct (start st clk) as [s|] eqn:Hs; cbn [fst snd app].
  - rewrite observed_app. f_equal. unfold exchange, tryBlock.
    destruct response as [|status [[values e]|]].
    + cbn. by rewrite ?app_nil_r.
    + cbn [watch]. unfold step at 1. cbn [react ui tasks lookup list_lookup fst snd].
      cbn [observed app insert list_insert applyAll foldl chunks ending].
      rewrite watch_reads.
      pose proof (readLoop_threw (id (assistantMessage s)) new values e) as Ht.
      destruct (readLoop _ new values e) as [us threw]. cbn [fst snd] in *.
      subst threw. destruct e; by rewrite <- ?app_assoc.
    + cbn. by rewrite ?app_nil_r.
  - apply watch_idle. intros e He.
    destruct response as [|status [[values e']|]];
      repeat (apply elem_of_cons in He as [->|He]; [done|]);
      try by apply elem_of_nil in He.
    apply elem_of_app in He as [He|He].
    + apply list_elem_of_fmap in He as (v & -> & _). done.
    + apply list_elem_of_singleton in He as ->. by destruct e'.
Qed.

(** * Further properties of the component *)

(** ** The question that is sent *)

Lemma trimStart_split s :
  exists a, s = a ++ trimStart s /\ Forall (fun c => isWhiteSpace c = true) a.
Proof.
  induction s as [|c s (a & Hs & Ha)]; [by exists []|]. cbn.
  destruct (isWhiteSpace c) eqn:Hc.
  - exists (c :: a). split; [cbn; by f_equal|by constructor].
  - by exists [].
Qed.

Lemma trimStart_head s c :
  head (trimStart s) = Some c -> isWhiteSpace c = false.
Proof.
  induction s as [|x s IH]; [done|]. cbn.
  destruct (isWhiteSpace x) eqn:Hx; [done|]. by intros [= <-].
Qed.

Lemma trimEnd_split s :
  exists b, s = trimEnd s ++ b /\ Forall (fun c => isWhiteSpace c = true) b.
Proof.
  destruct (trimStart_split (reverse s)) as (a & Hs & Ha).
  exists (reverse a). split; [|by apply Forall_reverse].
  unfold trimEnd. rewrite <- reverse_app, <- Hs. by rewrite reverse_involutive.
Qed.

Lemma trimEnd_last s c :
  last (trimEnd s) = Some c -> isWhiteSpace c = false.
Proof.
  unfold trimEnd. rewrite last_reverse. apply trimStart_head.
Qed.

Lemma trim_head s c : head (trim s) = Some c -> isWhiteSpace c = false.
Proof.
  unfold trim. destruct (trimEnd_split (trimStart s)) as (b & Hs & _).
  intros Hc. apply (trimStart_head s). rewrite Hs.
  by destruct (trimEnd (trimStart s)).
Qed.

Lemma trimStart_fixed s c :
  head s = Some c -> isWhiteSpace c = false -> trimStart s = s.
Proof. destruct s as [|x s]; [done|]. cbn. by intros [= ->] ->. Qed.

Lemma trim_fixed s c c' :
  head s = Some c -> isWhiteSpace c = false ->
  last s = Some c' -> isWhiteSpace c' = false -> trim s = s.
Proof.
  intros Hh Hc Hl Hc'. unfold trim, trimEnd.
  rewrite (trimStart_fixed s c Hh Hc).
  rewrite (trimStart_fixed (reverse s) c'); [apply reverse_involutive| |done].
  by rewrite head_reverse.
Qed.

(** X1: the text of the user message and the question sent to the backend
    are the same string: the typed text without its leading and trailing
    white space and nothing else removed; it is not empty and neither
    starts nor ends with white space. *)
Theorem question_is_the_trimmed_text st clk s :
  start st clk = Some s ->
  content (userMessage s) = pregunta (request s) /\
  (exists a b, input st = a ++ pregunta (request s) ++ b /\
               Forall (fun c => isWhiteSpace c = true) a /\
               Forall (fun c => isWhiteSpace c = true) b) /\
  (exists c, head (pregunta (request s)) = Some c /\ isWhiteSpace c = false) /\
  (exists c, last (pregunta (request s)) = Some c /\ isWhiteSpace c = false).
Proof.
  unfold start. destruct (truthy (trim (input st))) eqn:Ht; [|done].
  destruct (isLoading st); [done|]. intros [= <-]. cbn.
  split; [done|]. split; [|split].
  - unfold trim. destruct (trimStart_split (input st)) as (a & Ha & Hwa).
    destruct (trimEnd_split (trimStart (input st))) as (b & Hb & Hwb).
    exists a, b. split; [|done]. by rewrite <- Hb.
  - destruct (trim (input st)) as [|c r] eqn:E; [done|].
    exists c. split; [done|]. apply (trim_head (input st)). by rewrite E.
  - destruct (last (trim (input st))) as [c|] eqn:E.
    + exists c. split; [done|]. by apply (trimEnd_last (trimStart (input st))).
    + apply last_None in E. by rewrite E in Ht.
Qed.

Lemma question_is_the_trimmed_text_witness :
  exists s, start exampleState exampleClock = Some s /\
            content (userMessage s) = pregunta (request s).
Proof.
  eexists. split; [reflexivity|].
  apply (question_is_the_trimmed_text exampleState exampleClock _ eq_refl).
Defined.

(** X2: a text that neither starts nor ends with white space is accepted
    when no exchange is in flight, and goes out whole, whatever its length:
    the request and the user message carry the typed text unchanged. *)
Theorem unpadded_text_is_sent_whole st clk c c' :
  isLoading st = false ->
  head (input st) = Some c -> isWhiteSpace c = false ->
  last (input st) = Some c' -> isWhiteSpace c' = false ->
  exists s, start st clk = Some s /\
            pregunta (request s) = input st /\
            content (userMessage s) = input st.
Proof.
  intros Hidle Hh Hc Hl Hc'. unfold start.
  rewrite (trim_fixed (input st) c c' Hh Hc Hl Hc'), Hidle.
  destruct (input st); [done|]. cbn. eauto.
Qed.

Lemma unpadded_text_is_sent_whole_witness :
  exists s, start exampleState exampleClock = Some s /\
            pregunta (request s) = lit "Hola".
Proof.
  destruct (unpadded_text_is_sent_whole exampleState exampleClock 0x48 0x61)
    as (s & Hs & Hq & _); [reflexivity..|].
  exists s. by split.
Defined.

(** ** The guard, the button and the keyboard *)

Lemma handleSubmit_nil st clk response :
  handleSubmit st clk response = [] <-> start st clk = None.
Proof.
  unfold handleSubmit. split.
  - destruct (start st clk) as [s|] eqn:Hs; [|done].
    unfold start in Hs. destruct (_ || _); [done|]. by injection Hs as <-.
  - by intros ->.
Qed.

(** X3: the submit button is disabled in exactly the states in which
    [handleSubmit] does nothing: the condition of line 227 and the guard of
    line 42 agree. *)
Theorem button_is_disabled_iff_submission_is_ignored st clk response :
  submitDisabled st = true <-> handleSubmit st clk response = [].
Proof.
  rewrite handleSubmit_nil. unfold submitDisabled, start.
  by destruct (negb (truthy (trim (input st))) || isLoading st).
Qed.

(** X4: a key event only ever acts through [handleSubmit]: any key other
    than Enter, and Enter with Shift, changes nothing and keeps its default
    action; and while the submit button is disabled no key at all, plain
    Enter included, issues an update. *)
Theorem keys_respect_the_guard st e clk response :
  (key e <> "Enter" \/ shiftKey e = true ->
   handleKeyDown st e clk response = (false, [])) /\
  (submitDisabled st = true -> snd (handleKeyDown st e clk response) = []).
Proof.
  unfold handleKeyDown. split.
  - intros [Hk|Hs].
    + by rewrite bool_decide_eq_false_2.
    + rewrite Hs. by rewrite andb_false_r.
  - intros Hd. destruct (_ && _); [|done]. cbn.
    apply handleSubmit_nil. unfold submitDisabled in Hd. unfold start.
    by rewrite Hd.
Qed.

Lemma keys_respect_the_guard_witness :
  snd (handleKeyDown (initialState 0) {| key := "Enter"; shiftKey := false |}
         exampleClock FetchRejected) = [].
Proof.
  apply (keys_respect_the_guard (initialState 0)
           {| key := "Enter"; shiftKey := false |} exampleClock FetchRejected).
  reflexivity.
Defined.

(** ** What the events of a session can do to the conversation *)

(** The updates an event triggers have one of six shapes. *)
Lemma react_shape s e :
  (exists text, e = Typed text /\ fst (react s e) = [SetInput text]) \/
  (exists clk st, e = Submitted clk /\ start (ui s) clk = Some st /\
                  fst (react s e) = updates st) \/
  (isTyped e = false /\ appended s e = [] /\
   (fst (react s e) = [] \/
    exists target,
      fst (react s e) = caught target \/
      (exists chunk, fst (react s e) = [SetMessages (appendFragment target chunk)]) \/
      fst (react s e) = [SetMessages (finalize target); SetIsLoading false])).
Proof.
  destruct e as [text|clk|k|k status hasBody|k value|k|k]; cbn [react appended isTyped].
  - left. by exists text.
  - destruct (start (ui s) clk) as [st|] eqn:Hs.
    + right. left. by exists clk, st.
    + right. right. auto.
  - right. right. do 2 (split; [done|]).
    destruct (tasks s !! k) as [[target|target decoder]|]; cbn; eauto.
  - right. right. do 2 (split; [done|]).
    destruct (tasks s !! k) as [[target|target decoder]|]; cbn; eauto.
    destruct hasBody; cbn; eauto.
  - right. right. do 2 (split; [done|]).
    destruct (tasks s !! k) as [[target|target decoder]|]; cbn; eauto.
    destruct (decode_stream decoder value) as [decoder' chunk]. cbn. eauto 6.
  - right. right. do 2 (split; [done|]).
    destruct (tasks s !! k) as [[target|target decoder]|]; cbn; eauto 6.
  - right. right. do 2 (split; [done|]).
    destruct (tasks s !! k) as [[target|target decoder]|]; cbn; eauto.
Qed.

Lemma identity_appendFragment target chunk l :
  identity <$> appendFragment target chunk l = identity <$> l.
Proof.
  unfold appendFragment. rewrite <- list_fmap_compose. apply list_fmap_ext.
  intros _ m _. cbn. by case_decide.
Qed.

Lemma identity_finalize target l : identity <$> finalize target l = identity <$> l.
Proof.
  unfold finalize. rewrite <- list_fmap_compose. apply list_fmap_ext.
  intros _ m _. cbn. by case_decide.
Qed.

Lemma identity_replaceAndFinalize target text l :
  identity <$> replaceAndFinalize target text l = identity <$> l.
Proof.
  unfold replaceAndFinalize. rewrite <- list_fmap_compose. apply list_fmap_ext.
  intros _ m _. cbn. by case_decide.
Qed.

Lemma start_updates st clk s :
  start st clk = Some s ->
  applyAll st (updates s) =
    {| messages := (messages st ++ [userMessage s]) ++ [assistantMessage s];
       input := []; isLoading := true |}.
Proof. unfold start. destruct (_ || _); [done|]. by intros [= <-]. Qed.

(** An event keeps the identities of the messages it finds and appends
    those of [appended] after them. *)
Lemma step_identities s e :
  identity <$> messages (ui (step s e)) =
  (identity <$> messages (ui s)) ++ appended s e.
Proof.
  unfold step. cbn [ui].
  destruct (react_shape s e) as
    [(text & -> & ->)|[(clk & st & -> & Hs & ->)|(_ & -> & Hu)]].
  - cbn. by rewrite app_nil_r.
  - rewrite (start_updates _ _ _ Hs). cbn [messages appended]. rewrite Hs.
    by rewrite !fmap_app, <- app_assoc.
  - rewrite app_nil_r.
    destruct Hu as [->|(target & [->|[(chunk & ->)| ->]])]; cbn;
      by rewrite ?identity_appendFragment, ?identity_finalize,
                 ?identity_replaceAndFinalize.
Qed.

(** X5: at most one exchange is ever in flight, and the busy flag tells
    whether one is: in the session reached by any sequence of events there
    is at most one suspended call of [handleSubmit], and [isLoading] is
    true exactly when there is one. *)
Theorem single_exchange_in_flight mounted es :
  (length (tasks (steps (initialSession mounted) es)) <= 1)%nat /\
  (isLoading (ui (steps (initialSession mounted) es)) = true <->
   tasks (steps (initialSession mounted) es) <> []).
Proof.
  destruct (watch_calm (initialSession mounted) es (inv_initialSession mounted))
    as [_ Hinv].
  unfold inv in Hinv.
  destruct (tasks (steps (initialSession mounted) es)) as [|t [|]]; [| |done].
  - destruct Hinv as [-> _]. by split; [cbn; lia|].
  - destruct Hinv as [-> _]. by split; [cbn; lia|].
Qed.

Lemma steps_cons s e es : steps s (e :: es) = steps (step s e) es.
Proof. reflexivity. Qed.

(** X6: no event removes or reorders a message or changes its id, role
    or timestamp: from any session, after any sequence of events, the
    identities of the messages that were there are the first ones of the
    conversation, in the same order. *)
Theorem conversation_is_append_only s es :
  (identity <$> messages (ui s)) `prefix_of`
  (identity <$> messages (ui (steps s es))).
Proof.
  revert s. induction es as [|e es IH]; intros s; [done|].
  rewrite steps_cons. etrans; [|apply IH].
  rewrite step_identities. by apply prefix_app_r.
Qed.




Lemma step_without_text s e :
  isTyped e = false -> input (ui s) = [] ->
  input (ui (step s e)) = [] /\ appended s e = [].
Proof.
  intros He Hin. unfold step. cbn [ui].
  destruct (react_shape s e) as
    [(text & -> & _)|[(clk & st & -> & Hs & _)|(_ & Ha & Hu)]]; [done| |].
  - unfold start in Hs. by rewrite Hin in Hs.
  - split; [|done].
    by destruct Hu as [->|(target & [->|[(chunk & ->)| ->]])].
Qed.

Lemma steps_without_text s es :
  Forall (fun e => isTyped e = false) es -> input (ui s) = [] ->
  input (ui (steps s es)) = [] /\
  length (messages (ui (steps s es))) = length (messages (ui s)).
Proof.
  intros Hes. revert s. induction Hes as [|e es He _ IH]; intros s Hin; [done|].
  destruct (step_without_text s e He Hin) as [Hin' Happ].
  rewrite steps_cons. destruct (IH (step s e) Hin') as [-> ->].
  split; [done|].
  rewrite <- (length_fmap identity), step_identities, Happ, app_nil_r.
  apply length_fmap.
Qed.

(** X8: a submission that is accepted clears the input, and from then on,
    whatever happens (further submissions, settlements of the promises), no
    other message is appended until something is typed again: the
    conversation has grown by exactly the two messages of that
    submission. *)
Theorem no_resubmission_without_typing s clk es :
  accepted (ui s) = true ->
  Forall (fun e => isTyped e = false) es ->
  input (ui (steps s (Submitted clk :: es))) = [] /\
  length (messages (ui (steps s (Submitted clk :: es)))) =
    (length (messages (ui s)) + 2)%nat.
Proof.
  intros Hacc Hes. destruct (accepted_start (ui s) clk Hacc) as (st & Hs & _).
  assert (ui (step s (Submitted clk)) =
          {| messages := (messages (ui s) ++ [userMessage st]) ++ [assistantMessage st];
             input := []; isLoading := true |}) as Hui.
  { unfold step. cbn [react ui]. rewrite Hs. cbn [fst]. by apply (start_updates _ clk). }
  rewrite steps_cons.
  destruct (steps_without_text (step s (Submitted clk)) es Hes) as [-> ->];
    [by rewrite Hui|].
  split; [done|]. rewrite Hui. cbn. rewrite !length_app. cbn. lia.
Qed.

Lemma no_resubmission_without_typing_witness :
  accepted exampleState = true /\
  length (messages (ui (steps {| ui := exampleState; tasks := [] |}
                          [Submitted exampleClock; FetchRejects 0;
                           Submitted laterClock]))) = 3%nat.
Proof.
  split; [reflexivity|].
  destruct (no_resubmission_without_typing {| ui := exampleState; tasks := [] |}
              exampleClock [FetchRejects 0; Submitted laterClock]) as [_ H];
    [reflexivity|by repeat constructor|exact H].
Defined.

(** ** Identifiers under a well-behaved clock *)

Lemma id_identity (l : list Message) :
  id <$> l = (fun x : string * MessageType * Z => x.1.1) <$> (identity <$> l).
Proof. by rewrite <- list_fmap_compose. Qed.

Lemma appended_ids s clk :
  (fun x : string * MessageType * Z => x.1.1) <$> appended s (Submitted clk) = [] \/
  (fun x : string * MessageType * Z => x.1.1) <$> appended s (Submitted clk) =
    [pretty (now_user clk); pretty (now_assistant clk + 1)%Z].
Proof. cbn. unfold start. destruct (_ || _); cbn; auto. Qed.

Lemma spaced_NoDup last s es :
  NoDup (id <$> messages (ui s)) ->
  Forall (fun i => exists z, i = pretty z /\ (z <= last)%Z) (id <$> messages (ui s)) ->
  spaced last es ->
  NoDup (id <$> messages (ui (steps s es))).
Proof.
  revert last s. induction es as [|e es IH]; intros last s Hnd Hle Hsp; [done|].
  rewrite steps_cons.
  assert (forall l1 l2 : Z, (l1 <= l2)%Z ->
            Forall (fun i => exists z, i = pretty z /\ (z <= l1)%Z)
                   (id <$> messages (ui s)) ->
            Forall (fun i => exists z, i = pretty z /\ (z <= l2)%Z)
                   (id <$> messages (ui s))) as Hmono.
  { intros l1 l2 Hl H. eapply Forall_impl; [exact H|]. intros i (z & -> & Hz).
    exists z. split; [done|lia]. }
  assert (isTyped e = true \/ appended s e = [] ->
          id <$> messages (ui (step s e)) = id <$> messages (ui s)) as Hsame.
  { intros Hno. rewrite id_identity, step_identities.
    replace (appended s e) with (@nil (string * MessageType * Z)).
    - by rewrite app_nil_r, <- id_identity.
    - destruct Hno as [Ht| ->]; [by destruct e|done]. }
  destruct e as [text|clk|k|k status hasBody|k value|k|k];
    try (apply (IH last); [by rewrite Hsame; auto|by rewrite Hsame; auto|done]).
  destruct Hsp as (Hlast & Hclk & Hsp).
  apply (IH (now_assistant clk + 1)%Z); [| |done];
    rewrite id_identity, step_identities, fmap_app, <- id_identity;
    destruct (appended_ids s clk) as [-> | ->]; rewrite ?app_nil_r; try done.
  - apply NoDup_app. split; [done|]. split.
    + intros i Hi Hnew. rewrite Forall_forall in Hle.
      destruct (Hle i Hi) as (z & -> & Hz).
      apply elem_of_cons in Hnew as [Heq|Hnew].
      { apply (inj pretty) in Heq. lia. }
      apply list_elem_of_singleton in Hnew. apply (inj pretty) in Hnew. lia.
    + apply NoDup_cons. split; [|apply NoDup_singleton].
      intros Heq%list_elem_of_singleton%(inj pretty). lia.
  - apply (Hmono last); [lia|done].
  - apply Forall_app. split; [apply (Hmono last); [lia|done]|].
    repeat constructor.
    + exists (now_user clk). split; [done|lia].
    + exists (now_assistant clk + 1)%Z. split; [done|lia].
Qed.

(** X9: when every submission reads the clock later than the largest
    identifier given so far (1 at the start, then the previous placeholder's
    reading plus one) and the clock does not step back between the two
    readings of one submission, all message identifiers of the conversation
    are pairwise distinct. *)
Theorem ids_are_distinct_under_a_spaced_clock mounted es :
  spaced 1 es ->
  NoDup (id <$> messages (ui (steps (initialSession mounted) es))).
Proof.
  apply spaced_NoDup.
  - cbn. apply NoDup_singleton.
  - cbn. repeat constructor. exists 1%Z. by split.
Qed.

Lemma ids_are_distinct_under_a_spaced_clock_witness :
  spaced 1 [Typed (lit "a"); Submitted exampleClock; FetchRejects 0] /\
  NoDup (id <$> messages (ui (steps (initialSession 0)
                                [Typed (lit "a"); Submitted exampleClock;
                                 FetchRejects 0]))).
Proof.
  assert (spaced 1 [Typed (lit "a"); Submitted exampleClock; FetchRejects 0]) as H
    by (cbn; lia).
  split; [exact H|].
  apply (ids_are_distinct_under_a_spaced_clock 0 _ H).
Defined.

(** ** Which messages an exchange touches *)

(** An exchange acts message by message, on the messages carrying the
    target id only. *)
Lemma outcome_pointwise target response l :
  outcome target response l =
  (fun m =>
     if decide (id m = target)
     then {| id := id m;
             content :=
               match response with
               | FetchResolved _ (Some {| chunks := values; ending := EndOfStream |}) =>
                   content m ++ snd (decode_chunks new values)
               | _ => errorMessage
               end;
             type := type m; timestamp := timestamp m;
             isStreaming := Some false |}
     else m) <$> l.
Proof.
  unfold outcome, finalize, replaceAndFinalize, appendFragment.
  destruct response as [|status [[values []]|]]; cbn [chunks ending];
    rewrite <- ?list_fmap_compose; apply list_fmap_ext; intros _ m _; cbn;
    repeat (case_decide; cbn in *); done.
Qed.

(** X10: when no earlier message carries the identifier given to the
    placeholder, and the user message does not either, an accepted
    submission leaves every earlier message exactly as it was and ends with
    the conversation extended by the user message and the finalized
    assistant message, whatever the response. *)
Theorem fresh_identifier_isolates_the_exchange st clk response :
  accepted st = true ->
  Forall (fun m => id m <> pretty (now_assistant clk + 1)%Z) (messages st) ->
  now_user clk <> (now_assistant clk + 1)%Z ->
  messages (finalState st clk response) =
    messages st ++
    [ {| id := pretty (now_user clk); content := trim (input st); type := user;
         timestamp := date_user clk; isStreaming := None |};
      {| id := pretty (now_assistant clk + 1)%Z;
         content := terminalContent response; type := assistant;
         timestamp := date_assistant clk; isStreaming := Some false |} ].
Proof.
  intros Hacc Hfresh Hclk.
  destruct (accepted_start st clk Hacc) as (s & Hs & _ & Hum & Ham).
  rewrite (applyAll_handleSubmit st clk response s Hs). cbn [messages].
  rewrite outcome_pointwise, Hum, Ham, !fmap_app, <- app_assoc. cbn.
  f_equal.
  - rewrite <- (list_fmap_id (messages st)) at 2. apply list_fmap_ext.
    intros i m Hm. rewrite Forall_forall in Hfresh.
    case_decide; [|done]. by destruct (Hfresh m (list_elem_of_lookup_2 _ _ _ Hm)).
  - f_equal.
    + case_decide as Heq; [|done]. by apply (inj pretty) in Heq.
    + f_equal. case_decide; [|done].
      by destruct response as [|status [[values []]|]].
Qed.

Lemma fresh_identifier_isolates_the_exchange_witness :
  accepted exampleState = true /\
  length (messages (finalState exampleState exampleClock FetchRejected)) = 3%nat.
Proof.
  split; [reflexivity|].
  rewrite (fresh_identifier_isolates_the_exchange exampleState exampleClock
             FetchRejected); [reflexivity|reflexivity| |done].
  repeat constructor. discriminate.
Defined.

(** X11: updates are addressed by identifier alone: an earlier message
    that carries the identifier given to the placeholder receives the same
    updates as the placeholder.  At the end of the exchange it is marked
    not streaming and its content is its old content followed by the
    decoded body when the body was read to its end, and the fixed error
    message otherwise. *)
Theorem same_identifier_shares_the_updates st clk response i m :
  accepted st = true ->
  messages st !! i = Some m ->
  id m = pretty (now_assistant clk + 1)%Z ->
  messages (finalState st clk response) !! i =
    Some {| id := id m;
            content :=
              match response with
              | FetchResolved _ (Some {| chunks := values; ending := EndOfStream |}) =>
                  content m ++ snd (decode_chunks new values)
              | _ => errorMessage
              end;
            type := type m; timestamp := timestamp m;
            isStreaming := Some false |}.
Proof.
  intros Hacc Hm Hid.
  destruct (accepted_start st clk Hacc) as (s & Hs & _ & _ & Ham).
  rewrite (applyAll_handleSubmit st clk response s Hs). cbn [messages].
  rewrite outcome_pointwise, list_lookup_fmap, <- app_assoc.
  rewrite (lookup_app_l_Some _ _ _ _ Hm). cbn. rewrite Ham. cbn.
  by case_decide.
Qed.

Lemma same_identifier_shares_the_updates_witness :
  content <$>
    messages (finalState
                {| messages := messages (initialState 0); input := lit "Hola";
                   isLoading := false |}
                {| now_user := 5; date_user := 5; now_assistant := 0;
                   date_assistant := 5 |}
                FetchRejected) !! 0%nat
  = Some errorMessage.
Proof.
  rewrite (same_identifier_shares_the_updates _ _ FetchRejected 0%nat
             {| id := "1"; content := greeting; type := assistant;
                timestamp := 0; isStreaming := None |});
    reflexivity.
Defined.

(** ** What the final state depends on *)

(** X12: the final state of an exchange whose body is read to its end
    depends on the bytes received, not on how they were cut into chunks
    nor on the status: two bodies with the same concatenation of chunks
    give the same final state, for any bytes, valid UTF-8 or not. *)
Theorem chunk_boundaries_do_not_matter st clk status status' values values' :
  concat values = concat values' ->
  finalState st clk (streamed status values) =
  finalState st clk (streamed status' values').
Proof.
  intros Hcat. unfold finalState, handleSubmit.
  destruct (start st clk) as [s|] eqn:Hs; [|done].
  fold (handleSubmit st clk (streamed status values)).
  pose proof (applyAll_handleSubmit st clk (streamed status values) s Hs) as H1.
  pose proof (applyAll_handleSubmit st clk (streamed status' values') s Hs) as H2.
  unfold finalState, handleSubmit in H1, H2. rewrite Hs in H1, H2.
  rewrite H1, H2. unfold streamed, outcome. cbn [chunks ending].
  by rewrite !decode_chunks_concat, Hcat.
Qed.

Lemma chunk_boundaries_do_not_matter_witness :
  finalState exampleState exampleClock (streamed 200 [[xe2; x82]; [xac; xff]]) =
  finalState exampleState exampleClock (streamed 200 [[xe2]; [x82; xac]; [xff]]).
Proof.
  apply (chunk_boundaries_do_not_matter exampleState exampleClock 200 200
           [[xe2; x82]; [xac; xff]] [[xe2]; [x82; xac]; [xff]]).
  reflexivity.
Defined.

(** X13: all the ways an exchange can fail end in one and the same state:
    a read that fails after any number of chunks leaves exactly the state
    that a rejected [fetch], or a response without a body, leaves; nothing
    of what was received before the failure remains anywhere. *)
Theorem every_failure_ends_in_the_same_state st clk status values :
  finalState st clk (interrupted status values) = finalState st clk FetchRejected /\
  finalState st clk (FetchResolved status None) = finalState st clk FetchRejected.
Proof.
  unfold finalState, handleSubmit.
  destruct (start st clk) as [s|] eqn:Hs; [|done].
  pose proof (fun r => applyAll_handleSubmit st clk r s Hs) as H.
  unfold finalState, handleSubmit in H. rewrite Hs in H.
  rewrite !H. split; [|done].
  by rewrite !outcome_pointwise.
Qed.

(** ** How the updates compose *)

(** X14: the three updaters compose as an append-then-close protocol:
    two fragments applied in turn are one application of their
    concatenation; marking complete twice, or after the error replacement,
    changes nothing more; the error replacement wipes any fragment applied
    before it; and fragments for different or equal targets may be applied
    in either order with marking complete. *)
Theorem updaters_compose target target' c1 c2 text l :
  appendFragment target c2 (appendFragment target c1 l) =
    appendFragment target (c1 ++ c2) l /\
  finalize target (finalize target l) = finalize target l /\
  finalize target (replaceAndFinalize target text l) =
    replaceAndFinalize target text l /\
  replaceAndFinalize target text (appendFragment target c1 l) =
    replaceAndFinalize target text l /\
  finalize target' (appendFragment target c1 l) =
    appendFragment target c1 (finalize target' l).
Proof.
  unfold appendFragment, finalize, replaceAndFinalize.
  repeat split; rewrite <- ?list_fmap_compose; apply list_fmap_ext;
    intros _ m _; cbn; repeat (case_decide; cbn in *); try done.
  by rewrite app_assoc.
Qed.

Lemma decode_stream_app decoder v1 v2 :
  decode_stream decoder (v1 ++ v2) =
    let '(d1, o1) := decode_stream decoder v1 in
    let '(d2, o2) := decode_stream d1 v2 in (d2, o1 ++ o2).
Proof.
  unfold decode_stream.
  set (dec0 := if do_not_flush decoder then decoder else new).
  rewrite run_app. destruct (run (utf8 dec0) v1) as [d1 s1].
  destruct (run d1 v2) as [d2 s2] eqn:Hrun2. rewrite serialize_app.
  destruct (serialize (BOM_seen dec0) s1) as [b1 o1].
  cbn [do_not_flush utf8 BOM_seen]. rewrite Hrun2.
  destruct (serialize b1 s2) as [b2 o2]. by rewrite utf16_all_app.
Qed.

Lemma step_nothing s e : fst (react s e) = [] -> snd (react s e) = tasks s -> step s e = s.
Proof. unfold step. intros -> ->. by destruct s. Qed.

(** X15: two reads in a row leave the session exactly where a single read
    of the two chunks joined leaves it: same conversation, same bytes held
    back in the decoder. *)
Theorem consecutive_reads_merge s k v1 v2 :
  steps s [ReadResolves k v1; ReadResolves k v2] =
  steps s [ReadResolves k (v1 ++ v2)].
Proof.
  cbn [steps foldl].
  destruct (tasks s !! k) as [[target|target decoder]|] eqn:Hk.
  - assert (forall v, step s (ReadResolves k v) = s) as Hn
      by (intros v; apply step_nothing; cbn [react]; by rewrite Hk).
    by rewrite !Hn.
  - unfold step at 2 3. cbn [react]. rewrite Hk.
    pose proof (decode_stream_app decoder v1 v2) as Happ.
    destruct (decode_stream decoder v1) as [d1 o1].
    destruct (decode_stream decoder (v1 ++ v2)) as [d12 o12].
    unfold step. cbn [react fst snd ui tasks].
    rewrite list_lookup_insert_eq by (by eapply lookup_lt_Some).
    destruct (decode_stream d1 v2) as [d2 o2]. injection Happ as -> ->.
    cbn. rewrite list_insert_insert_eq. f_equal.
    destruct (ui s) as [msgs inp busy]. cbn. f_equal.
    apply appendFragment_app.
  - assert (forall v, step s (ReadResolves k v) = s) as Hn
      by (intros v; apply step_nothing; cbn [react]; by rewrite Hk).
    by rewrite !Hn.
Qed.

(** ** The text the decoder can produce *)

Lemma is_scalar_intro cp :
  cp < 0xD800 \/ 0xE000 <= cp <= 0x10FFFF -> is_scalar cp = true.
Proof. unfold is_scalar. decide_tests; intros; try done; lia. Qed.

Ltac split_tests :=
  repeat match goal with
  | H : context [N.eqb ?a ?b] |- _ => destruct (N.eqb_spec a b)
  end.

Ltac finish_ok :=
  cbn [fst snd]; split;
  [ unfold pending_ok; cbn; decide_tests; first [by left | lia]
  | repeat constructor; try (apply is_scalar_intro; lia); try done ].

Lemma lead_ok b :
  b < 256 ->
  pending_ok (fst (lead b)) /\ Forall (fun c => is_scalar c = true) (snd (lead b)).
Proof.
  intros Hb. unfold lead. rewrite land_1F, land_F, land_7.
  decide_tests; finish_ok.
Qed.

Lemma handler_ok d b :
  pending_ok d -> b < 256 ->
  pending_ok (fst (handler d b)) /\
  Forall (fun c => is_scalar c = true) (snd (handler d b)).
Proof.
  intros Hd Hb. pose proof (lead_ok b Hb) as [Hl1 Hl2].
  destruct Hd as [->|Hd]; [by rewrite handler_lead|].
  destruct d as [cp seen needed lower upper]. cbn in Hd.
  unfold handler. cbn [bytes_needed bytes_seen code_point lower_boundary upper_boundary].
  rewrite land_3F, lor_shiftl_6 by lia.
  destruct (lead b) as [d' out]. cbn [fst snd] in Hl1, Hl2.
  destruct (N.eqb_spec needed 0) as [Hz|_]; [lia|].
  destruct (N.leb_spec lower b), (N.leb_spec b upper); cbn [andb negb fst snd];
    try (split; [done|by constructor]).
  destruct (N.eqb_spec (seen + 1) needed) as [Hdone|Hmore]; cbn [negb fst snd].
  - split; [by left|]. repeat constructor. apply is_scalar_intro.
    destruct Hd as [Hd|[Hd|[Hd|[Hd|[Hd|Hd]]]]]; destruct Hd as (-> & -> & Hd);
      try lia; split_tests; lia.
  - split; [|constructor]. right. unfold pending_ok.
    cbn [bytes_needed bytes_seen code_point lower_boundary upper_boundary].
    destruct Hd as [Hd|[Hd|[Hd|[Hd|[Hd|Hd]]]]]; destruct Hd as (-> & -> & Hd);
      try lia; split_tests; decide_tests; lia.
Qed.

Lemma run_ok d bs :
  pending_ok d ->
  pending_ok (fst (run d bs)) /\ Forall (fun c => is_scalar c = true) (snd (run d bs)).
Proof.
  revert d. induction bs as [|b bs IH]; intros d Hd; [by split|].
  cbn [run].
  assert (Byte.to_N b < 256) as Hb by (pose proof (Byte.to_N_bounded b); lia).
  destruct (handler_ok d (Byte.to_N b) Hd Hb) as [Hd1 Ho1].
  destruct (handler d (Byte.to_N b)) as [d1 o1]. cbn [fst snd] in *.
  destruct (IH d1 Hd1) as [Hd2 Ho2].
  destruct (run d1 bs) as [d2 o2]. cbn [fst snd] in *.
  split; [done|]. by apply Forall_app.
Qed.

Lemma serialize_ok seen items :
  Forall (fun c => is_scalar c = true) items ->
  Forall (fun c => is_scalar c = true) (snd (serialize seen items)).
Proof.
  intros H. revert seen. induction H as [|c items Hc _ IH]; intros seen; [done|].
  cbn [serialize]. destruct seen; [|destruct (c =? BOM)].
  - specialize (IH true). destruct (serialize true items). by constructor.
  - apply IH.
  - specialize (IH true). destruct (serialize true items). by constructor.
Qed.

Lemma wellFormed16_utf16 cp rest :
  is_scalar cp = true -> wellFormed16 (utf16 cp ++ rest) = wellFormed16 rest.
Proof.
  intros Hs%is_scalar_range. unfold utf16.
  destruct (N.ltb_spec cp 0x10000) as [Hlt|Hge]; cbn [app wellFormed16].
  - destruct (N.leb_spec 0xD800 cp), (N.leb_spec cp 0xDBFF),
      (N.leb_spec 0xDC00 cp), (N.leb_spec cp 0xDFFF); cbn; try done; lia.
  - rewrite N.shiftr_div_pow2, (N.land_ones _ 10). change (2 ^ 10) with 1024.
    set (c := cp - 0x10000).
    assert (c < 0x100000) as Hc by (unfold c; lia).
    destruct (N.leb_spec 0xD800 (0xD800 + c / 1024)),
      (N.leb_spec (0xD800 + c / 1024) 0xDBFF),
      (N.leb_spec 0xDC00 (0xDC00 + c mod 1024)),
      (N.leb_spec (0xDC00 + c mod 1024) 0xDFFF); cbn; try done; lia.
Qed.

Lemma wellFormed16_utf16_all cps :
  Forall (fun c => is_scalar c = true) cps -> wellFormed16 (utf16_all cps) = true.
Proof.
  induction 1 as [|cp cps Hcp _ IH]; [done|].
  unfold utf16_all in *. cbn [flat_map]. by rewrite wellFormed16_utf16.
Qed.

(** X16: whatever bytes the server sends, valid UTF-8 or not, and however
    the exchange ends, the content the placeholder ends with is well-formed
    UTF-16: it never holds a lone surrogate. *)
Theorem final_content_is_well_formed st clk response :
  accepted st = true ->
  exists m, placeholder st (finalState st clk response) = Some m /\
            wellFormed16 (content m) = true.
Proof.
  intros Hacc. destruct (handleSubmit_terminal st clk response Hacc) as [-> _].
  eexists. split; [reflexivity|]. cbn [content]. unfold terminalContent.
  destruct response as [|status [[values []]|]]; [reflexivity| |reflexivity..].
  rewrite decode_chunks_concat. cbn [do_not_flush new utf8 BOM_seen].
  apply wellFormed16_utf16_all, serialize_ok, run_ok. by left.
Qed.

Lemma final_content_is_well_formed_witness :
  accepted exampleState = true /\
  exists m, placeholder exampleState
              (finalState exampleState exampleClock
                 (streamed 200 [[xed; xa0; x80; xf0]])) = Some m /\
            wellFormed16 (content m) = true.
Proof.
  split; [reflexivity|].
  apply (final_content_is_well_formed exampleState exampleClock
           (streamed 200 [[xed; xa0; x80; xf0]])).
  reflexivity.
Defined.

Lemma run_invalid_lead b :
  invalid_lead b = true -> run utf8_init [b] = (utf8_init, [REPLACEMENT]).
Proof.
  unfold invalid_lead. cbn [run]. rewrite handler_lead. unfold lead.
  pose proof (Byte.to_N_bounded b).
  destruct (N.leb_spec 0x80 (Byte.to_N b)), (N.leb_spec (Byte.to_N b) 0xC1),
    (N.leb_spec 0xF5 (Byte.to_N b)); cbn; try done; intros _;
    decide_tests; reflexivity.
Qed.

Lemma run_after d a b d' o :
  run d a = (d', o) ->
  run d (a ++ b) = (fst (run d' b), o ++ snd (run d' b)).
Proof. intros H. rewrite run_app, H. by destruct (run d' b). Qed.

(** X17: a byte that cannot start a character (a stray continuation byte,
    or a lead byte no encoding uses), met between two characters of an
    otherwise valid stream, does not make the exchange fail: it is shown as
    one replacement character U+FFFD, the characters around it are decoded
    as usual, and the placeholder is finalized on the success path. *)
Theorem invalid_byte_becomes_one_replacement_character
    st clk status values cps1 b cps2 :
  accepted st = true ->
  Forall (fun cp => is_scalar cp = true) cps1 ->
  Forall (fun cp => is_scalar cp = true) cps2 ->
  invalid_lead b = true ->
  concat values = utf8_encode_all cps1 ++ [b] ++ utf8_encode_all cps2 ->
  content <$> placeholder st (finalState st clk (streamed status values)) =
    Some (utf16_all (strip_bom (cps1 ++ [REPLACEMENT] ++ cps2))) /\
  isStreaming <$> placeholder st (finalState st clk (streamed status values)) =
    Some (Some false).
Proof.
  intros Hacc H1 H2 Hb Hcat.
  destruct (handleSubmit_terminal st clk (streamed status values) Hacc) as [-> _].
  split; [|done]. cbn [fmap option_fmap option_map content terminalContent streamed].
  rewrite decode_chunks_concat. cbn [do_not_flush new utf8 BOM_seen].
  rewrite Hcat, (run_after _ _ _ _ _ (run_utf8_encode_all cps1 H1)).
  rewrite (run_after _ _ _ _ _ (run_invalid_lead b Hb)).
  rewrite run_utf8_encode_all by done. cbn [snd].
  by rewrite serialize_unseen.
Qed.

Lemma invalid_byte_becomes_one_replacement_character_witness :
  invalid_lead xff = true /\
  content <$> placeholder exampleState
                (finalState exampleState exampleClock
                   (streamed 200 [[x41; xff]; [xe2; x82; xac]]))
    = Some [0x41; 0xFFFD; 0x20AC].
Proof.
  split; [reflexivity|].
  apply (invalid_byte_becomes_one_replacement_character exampleState exampleClock
           200 [[x41; xff]; [xe2; x82; xac]] [0x41] xff [0x20AC]);
    [reflexivity|by repeat constructor|by repeat constructor|reflexivity|reflexivity].
Defined.
